(** * FridgeOmeter: the live scanner of [App.tsx]

  A shallow embedding of the streaming scanner view ([ScannerView]) and of
  the audio utilities it uses ([decode], [encode], [decodeAudioData]),
  followed by the properties of the specification that were checked
  against it. The text helpers of [geminiService.ts] ([cleanJson] and the
  two estimates), [ExpiryBadge] and the payload of a data URL are embedded
  as well, with properties of their own.

  Conventions of the model.
  - A JavaScript string is a [string]: the strings that matter here (base64
    text, the binary strings built by [String.fromCharCode] on bytes and
    returned by [atob], and transcript text) only need code units below 256.
  - A [Uint8Array] is a [list Z] whose elements lie in [0, 256); an
    [Int16Array] is a [list Z] whose elements lie in [-32768, 32768).
  - A JavaScript number used as a sample value, as a time or as a price is
    an exact rational ([Q]); rounding of doubles is not modelled.
  - Browser built-ins ([atob], [btoa], typed-array conversions, the Web Audio
    calls) are modelled after their standards, each where it is used. *)

From Stdlib Require Import Ascii String ZArith QArith Qminmax Qabs Qround Lia Lqa.
From Stdlib Require Import DecimalString.
From stdpp Require Import base option list strings.

Open Scope Z_scope.

(** ** Platform: strings and bytes *)

Module JS.

(** [s.charCodeAt(i)] for the character [c] at that position. *)
Definition charCodeAt (c : ascii) : Z := Z.of_N (N_of_ascii c).

(** [String.fromCharCode(n)], applied in this program to elements of a
    [Uint8Array] only. *)
Definition fromCharCode (n : Z) : ascii := ascii_of_N (Z.to_N n).

(** Storing a number into a [Uint8Array] slot (ToUint8). *)
Definition ToUint8 (n : Z) : Z := n mod 256.

(** Truthiness of an optional string: [undefined] and the empty string are
    falsy. *)
Definition truthy_string (s : option string) : bool :=
  match s with
  | Some (String _ _) => true
  | _ => false
  end.

(** [s.startsWith(k)]. *)
Fixpoint startsWith (s k : string) {struct k} : bool :=
  match k with
  | EmptyString => true
  | String a k' =>
      match s with
      | EmptyString => false
      | String b s' => Ascii.eqb a b && startsWith s' k'
      end
  end.

(** [s.includes(k)]: [k] occurs in [s] at some position. *)
Fixpoint includes (s k : string) : bool :=
  if startsWith s k then true
  else match s with
       | EmptyString => false
       | String _ s' => includes s' k
       end.

(** [s.toLowerCase()] on code units below 256: the letters A to Z, and the
    capital letters of Latin-1 (192 to 222, the sign at 215 apart), move 32
    up; every other code unit is kept. *)
Definition lower_char (c : ascii) : ascii :=
  let n := charCodeAt c in
  if ((65 <=? n) && (n <=? 90))
     || ((192 <=? n) && (n <=? 222) && negb (n =? 215))
  then fromCharCode (n + 32) else c.

Fixpoint toLowerCase (s : string) : string :=
  match s with
  | EmptyString => EmptyString
  | String c s' => String (lower_char c) (toLowerCase s')
  end.

End JS.

(** ** Platform: base64 ([btoa] and [atob])

  [btoa] is the base64 encoding of RFC 4648 with padding; [atob] is the
  forgiving-base64 decode of the WHATWG Infra standard. *)

Module Base64.

Definition alphabet : list ascii :=
  list_ascii_of_string
    "ABCDEFGHIJKLMNOPQRSTUVWXYZabcdefghijklmnopqrstuvwxyz0123456789+/".

Definition pad : ascii := "="%char.

(** The character of a 6-bit value. *)
Definition char_of_sextet (n : Z) : ascii := nth (Z.to_nat n) alphabet pad.

Fixpoint index_from (i : Z) (c : ascii) (l : list ascii) : option Z :=
  match l with
  | [] => None
  | x :: r => if Ascii.eqb c x then Some i else index_from (i + 1) c r
  end.

(** The 6-bit value of a character of the alphabet; [None] for any other
    character. *)
Definition sextet_of_char (c : ascii) : option Z := index_from 0 c alphabet.

(** Three bytes give four 6-bit groups; a last group of one or two bytes is
    filled with zero bits. *)
Fixpoint sextets_of_bytes (bs : list Z) : list Z :=
  match bs with
  | [] => []
  | [a] => [a / 4; (a mod 4) * 16]
  | [a; b] => [a / 4; (a mod 4) * 16 + b / 16; (b mod 16) * 4]
  | a :: b :: c :: rest =>
      a / 4 :: (a mod 4) * 16 + b / 16 :: (b mod 16) * 4 + c / 64 :: c mod 64
        :: sextets_of_bytes rest
  end.

(** A last group of one byte is padded with two [=], one of two bytes with
    one [=]. *)
Fixpoint padding (bs : list Z) : list ascii :=
  match bs with
  | [] => []
  | [_] => [pad; pad]
  | [_; _] => [pad]
  | _ :: _ :: _ :: rest => padding rest
  end.

Definition base64_encode (bs : list Z) : list ascii :=
  map char_of_sextet (sextets_of_bytes bs) ++ padding bs.

(** Four 6-bit groups give three bytes; of a last group of two or three,
    the left-over low bits are dropped. *)
Fixpoint bytes_of_sextets (ss : list Z) : list Z :=
  match ss with
  | s0 :: s1 :: s2 :: s3 :: rest =>
      s0 * 4 + s1 / 16 :: (s1 mod 16) * 16 + s2 / 4 :: (s2 mod 4) * 64 + s3
        :: bytes_of_sextets rest
  | [s0; s1; s2] => [s0 * 4 + s1 / 16; (s1 mod 16) * 16 + s2 / 4]
  | [s0; s1] => [s0 * 4 + s1 / 16]
  | _ => []
  end.

Definition is_ascii_whitespace (c : ascii) : bool :=
  let n := JS.charCodeAt c in
  (n =? 9) || (n =? 10) || (n =? 12) || (n =? 13) || (n =? 32).

(** When the length is a multiple of four, one or two trailing [=] are
    removed. *)
Definition strip_padding (data : list ascii) : list ascii :=
  if (length data mod 4 =? 0)%nat then
    match rev data with
    | c1 :: c2 :: r =>
        if Ascii.eqb c1 pad
        then if Ascii.eqb c2 pad then rev r else rev (c2 :: r)
        else data
    | [c1] => if Ascii.eqb c1 pad then [] else data
    | [] => data
    end
  else data.

Fixpoint sextets_of_chars (data : list ascii) : option (list Z) :=
  match data with
  | [] => Some []
  | c :: r =>
      s ← sextet_of_char c;
      ss ← sextets_of_chars r;
      Some (s :: ss)
  end.

Definition forgiving_base64_decode (data : list ascii) : option (list Z) :=
  let data := List.filter (fun c => negb (is_ascii_whitespace c)) data in
  let data := strip_padding data in
  if (length data mod 4 =? 1)%nat then None
  else ss ← sextets_of_chars data; Some (bytes_of_sextets ss).

(** [btoa(s)] on a binary string (every code unit below 256). *)
Definition btoa (s : string) : string :=
  string_of_list_ascii
    (base64_encode (map JS.charCodeAt (list_ascii_of_string s))).

(** [atob(s)]; [None] stands for the [InvalidCharacterError] it throws. *)
Definition atob (s : string) : option string :=
  bytes ← forgiving_base64_decode (list_ascii_of_string s);
  Some (string_of_list_ascii (map JS.fromCharCode bytes)).

End Base64.

(** ** Base64 audio utilities of [App.tsx] *)

(** The loop [binary += String.fromCharCode(bytes[i])] of [encode]. *)
Fixpoint binary_of_bytes (bytes : list Z) : string :=
  match bytes with
  | [] => EmptyString
  | b :: rest => String (JS.fromCharCode b) (binary_of_bytes rest)
  end.

(** The loop [bytes[i] = binaryString.charCodeAt(i)] of [decode]. *)
Fixpoint bytes_of_binary (binaryString : string) : list Z :=
  match binaryString with
  | EmptyString => []
  | String c rest => JS.ToUint8 (JS.charCodeAt c) :: bytes_of_binary rest
  end.

(** [decode(base64)]; [None] stands for the error that [atob] throws. *)
Definition decode (base64 : string) : option (list Z) :=
  binaryString ← Base64.atob base64;
  Some (bytes_of_binary binaryString).

Definition encode (bytes : list Z) : string :=
  Base64.btoa (binary_of_bytes bytes).

Definition is_byte (b : Z) : Prop := 0 <= b < 256.

Definition is_sextet (s : Z) : Prop := 0 <= s < 64.

(** ** PCM conversion *)

(** Errors a handler can raise. *)
Inductive JsError :=
| TypeError
| RangeError
| InvalidCharacterError
| InvalidStateError
| NotSupportedError
| OtherError (message : option string).

Inductive Result (A : Type) :=
| Ok (a : A)
| Throw (e : JsError).
Arguments Ok {A} a.
Arguments Throw {A} e.

(** Truncation of a number towards zero. *)
Definition truncate (x : Q) : Z := Z.quot (Qnum x) (Z.pos (Qden x)).

(** Storing a number into an [Int16Array] slot (ToInt16): truncate, reduce
    modulo 2^16, read as a signed 16-bit value. *)
Definition ToInt16 (x : Q) : Z :=
  let m := truncate x mod 65536 in
  if 32768 <=? m then m - 65536 else m.

(** [new Uint8Array(int16.buffer)]: the two bytes of every element, low byte
    first. *)
Definition bytes_of_int16 (v : Z) : list Z :=
  let u := v mod 65536 in [u mod 256; u / 256].

Definition Uint8Array_of_Int16Array (int16 : list Z) : list Z :=
  flat_map bytes_of_int16 int16.

Definition int16_of_bytes (lo hi : Z) : Z :=
  let u := lo + 256 * hi in
  if 32768 <=? u then u - 65536 else u.

(** [new Int16Array(data.buffer)]: a [RangeError] when the byte length is
    odd. *)
Fixpoint Int16Array_of_Uint8Array (data : list Z) : option (list Z) :=
  match data with
  | [] => Some []
  | [_] => None
  | lo :: hi :: rest =>
      r ← Int16Array_of_Uint8Array rest; Some (int16_of_bytes lo hi :: r)
  end.

(** The body of [scriptNode.onaudioprocess] up to the payload it sends:
    [int16[i] = inputData[i] * 32768], then [encode]. *)
Definition int16_of_samples (inputData : list Q) : list Z :=
  map (fun x => ToInt16 (x * 32768)%Q) inputData.

Definition capture_payload (inputData : list Q) : string :=
  encode (Uint8Array_of_Int16Array (int16_of_samples inputData)).

Record AudioBuffer := {
  numberOfChannels : nat;
  frames : nat;
  sampleRate : Z;
  channelData : list (list Q)
}.

Definition duration (b : AudioBuffer) : Q :=
  (inject_Z (Z.of_nat (frames b)) / inject_Z (sampleRate b))%Q.

(** The inner loop of [decodeAudioData]:
    [channelData[i] = dataInt16[i * numChannels + channel] / 32768.0]. *)
Definition channel_samples (dataInt16 : list Z) (numChannels frameCount channel : nat)
  : list Q :=
  map (fun i => (inject_Z (nth (i * numChannels + channel)%nat dataInt16 0%Z) / 32768)%Q)
      (seq 0 frameCount).

(** [decodeAudioData(data, ctx, sampleRate, numChannels)]. [createBuffer]
    raises [NotSupportedError] for a count of channels or of frames that is
    zero; the frame count is the integer part of
    [dataInt16.length / numChannels]. *)
Definition decodeAudioData (data : list Z) (sampleRate : Z) (numChannels : nat)
  : Result AudioBuffer :=
  match Int16Array_of_Uint8Array data with
  | None => Throw RangeError
  | Some dataInt16 =>
      let frameCount := (length dataInt16 / numChannels)%nat in
      if (numChannels =? 0)%nat || (frameCount =? 0)%nat
      then Throw NotSupportedError
      else Ok {| numberOfChannels := numChannels;
                 frames := frameCount;
                 sampleRate := sampleRate;
                 channelData :=
                   map (channel_samples dataInt16 numChannels frameCount)
                       (seq 0 numChannels) |}
  end.

(** What a listener hears of what the microphone captured: the capture
    payload decoded the way [onmessage] decodes an inbound payload. *)
Definition capture_then_playback (inputData : list Q) : option (list Q) :=
  data ← decode (capture_payload inputData);
  match decodeAudioData data 24000 1 with
  | Ok buffer => channelData buffer !! 0%nat
  | Throw _ => None
  end.

(** ** Hazard keywords *)

(** The condition of the mould alert in [onmessage], on the lower-cased
    text. *)
Definition mould_condition (text : string) : bool :=
  JS.includes text "mould" || JS.includes text "mold"
  || JS.includes text "spoil" || JS.includes text "fuzzy".

Definition classify (transcript : string) : bool :=
  mould_condition (JS.toLowerCase transcript).

Definition hazard_keywords : list string := ["mould"; "mold"; "spoil"; "fuzzy"]%string.

(** [k] occurs in [s]. *)
Definition contains (s k : string) : Prop :=
  ∃ pre post : string, s = (pre ++ k ++ post)%string.

(** ** The scanner view: state *)

Record Session := { session_id : nat; close_throws : bool }.

(** A video element; its [srcObject] is a media stream, given by the ids of
    its tracks. *)
Record VideoElement := { srcObject : option (list nat) }.

Record AudioContext := { ctx_sampleRate : Z }.

Inductive NodeState :=
| Unstarted
| Scheduled (when : Q)
| Stopped
| Ended.

(** An [AudioBufferSourceNode]. *)
Record SourceNode := { buffer : option AudioBuffer; node_state : NodeState }.

(** Calls made on the world outside the component. *)
Inductive Effect :=
| CloseSession (id : nat)
| StopTrack (id : nat)
| StopSource (h : nat)
| CloseContext (c : AudioContext)
| SendFrame (frame : nat)
| SendAudio (base64 : string)
| GetUserMedia
| Connect
| KeyPrompt
| Notify (message : string)
| AnalyzeImage
| SpeakReport.

(** The state of [ScannerView]: its React state, its refs, and what the
    browser holds for it (the source nodes created so far, the frame timer,
    the frames being encoded, and the calls made so far, oldest first).
    [objectName] and [scanResult] only feed the display and are left out. *)
Record Scanner := {
  active : bool;
  loading : bool;
  analysisText : string;
  mouldAlert : bool;
  videoRef : option VideoElement;
  canvasRef : bool;
  sessionRef : option Session;
  audioCtxRef : option AudioContext;
  nextStartTimeRef : Q;
  sourcesRef : list nat;
  micCtxRef : option AudioContext;
  nodes : list SourceNode;
  interval : bool;
  framesInFlight : list nat;
  effects : list Effect
}.

Definition set_active (v : bool) (s : Scanner) : Scanner :=
  {| active := v;
     loading := loading s;
     analysisText := analysisText s;
     mouldAlert := mouldAlert s;
     videoRef := videoRef s;
     canvasRef := canvasRef s;
     sessionRef := sessionRef s;
     audioCtxRef := audioCtxRef s;
     nextStartTimeRef := nextStartTimeRef s;
     sourcesRef := sourcesRef s;
     micCtxRef := micCtxRef s;
     nodes := nodes s;
     interval := interval s;
     framesInFlight := framesInFlight s;
     effects := effects s |}.

Definition set_loading (v : bool) (s : Scanner) : Scanner :=
  {| active := active s;
     loading := v;
     analysisText := analysisText s;
     mouldAlert := mouldAlert s;
     videoRef := videoRef s;
     canvasRef := canvasRef s;
     sessionRef := sessionRef s;
     audioCtxRef := audioCtxRef s;
     nextStartTimeRef := nextStartTimeRef s;
     sourcesRef := sourcesRef s;
     micCtxRef := micCtxRef s;
     nodes := nodes s;
     interval := interval s;
     framesInFlight := framesInFlight s;
     effects := effects s |}.

Definition set_analysisText (v : string) (s : Scanner) : Scanner :=
  {| active := active s;
     loading := loading s;
     analysisText := v;
     mouldAlert := mouldAlert s;
     videoRef := videoRef s;
     canvasRef := canvasRef s;
     sessionRef := sessionRef s;
     audioCtxRef := audioCtxRef s;
     nextStartTimeRef := nextStartTimeRef s;
     sourcesRef := sourcesRef s;
     micCtxRef := micCtxRef s;
     nodes := nodes s;
     interval := interval s;
     framesInFlight := framesInFlight s;
     effects := effects s |}.

Definition set_mouldAlert (v : bool) (s : Scanner) : Scanner :=
  {| active := active s;
     loading := loading s;
     analysisText := analysisText s;
     mouldAlert := v;
     videoRef := videoRef s;
     canvasRef := canvasRef s;
     sessionRef := sessionRef s;
     audioCtxRef := audioCtxRef s;
     nextStartTimeRef := nextStartTimeRef s;
     sourcesRef := sourcesRef s;
     micCtxRef := micCtxRef s;
     nodes := nodes s;
     interval := interval s;
     framesInFlight := framesInFlight s;
     effects := effects s |}.

Definition set_videoRef (v : option VideoElement) (s : Scanner) : Scanner :=
  {| active := active s;
     loading := loading s;
     analysisText := analysisText s;
     mouldAlert := mouldAlert s;
     videoRef := v;
     canvasRef := canvasRef s;
     sessionRef := sessionRef s;
     audioCtxRef := audioCtxRef s;
     nextStartTimeRef := nextStartTimeRef s;
     sourcesRef := sourcesRef s;
     micCtxRef := micCtxRef s;
     nodes := nodes s;
     interval := interval s;
     framesInFlight := framesInFlight s;
     effects := effects s |}.

Definition set_canvasRef (v : bool) (s : Scanner) : Scanner :=
  {| active := active s;
     loading := loading s;
     analysisText := analysisText s;
     mouldAlert := mouldAlert s;
     videoRef := videoRef s;
     canvasRef := v;
     sessionRef := sessionRef s;
     audioCtxRef := audioCtxRef s;
     nextStartTimeRef := nextStartTimeRef s;
     sourcesRef := sourcesRef s;
     micCtxRef := micCtxRef s;
     nodes := nodes s;
     interval := interval s;
     framesInFlight := framesInFlight s;
     effects := effects s |}.

Definition set_sessionRef (v : option Session) (s : Scanner) : Scanner :=
  {| active := active s;
     loading := loading s;
     analysisText := analysisText s;
     mouldAlert := mouldAlert s;
     videoRef := videoRef s;
     canvasRef := canvasRef s;
     sessionRef := v;
     audioCtxRef := audioCtxRef s;
     nextStartTimeRef := nextStartTimeRef s;
     sourcesRef := sourcesRef s;
     micCtxRef := micCtxRef s;
     nodes := nodes s;
     interval := interval s;
     framesInFlight := framesInFlight s;
     effects := effects s |}.

Definition set_audioCtxRef (v : option AudioContext) (s : Scanner) : Scanner :=
  {| active := active s;
     loading := loading s;
     analysisText := analysisText s;
     mouldAlert := mouldAlert s;
     videoRef := videoRef s;
     canvasRef := canvasRef s;
     sessionRef := sessionRef s;
     audioCtxRef := v;
     nextStartTimeRef := nextStartTimeRef s;
     sourcesRef := sourcesRef s;
     micCtxRef := micCtxRef s;
     nodes := nodes s;
     interval := interval s;
     framesInFlight := framesInFlight s;
     effects := effects s |}.

Definition set_nextStartTimeRef (v : Q) (s : Scanner) : Scanner :=
  {| active := active s;
     loading := loading s;
     analysisText := analysisText s;
     mouldAlert := mouldAlert s;
     videoRef := videoRef s;
     canvasRef := canvasRef s;
     sessionRef := sessionRef s;
     audioCtxRef := audioCtxRef s;
     nextStartTimeRef := v;
     sourcesRef := sourcesRef s;
     micCtxRef := micCtxRef s;
     nodes := nodes s;
     interval := interval s;
     framesInFlight := framesInFlight s;
     effects := effects s |}.

Definition set_sourcesRef (v : list nat) (s : Scanner) : Scanner :=
  {| active := active s;
     loading := loading s;
     analysisText := analysisText s;
     mouldAlert := mouldAlert s;
     videoRef := videoRef s;
     canvasRef := canvasRef s;
     sessionRef := sessionRef s;
     audioCtxRef := audioCtxRef s;
     nextStartTimeRef := nextStartTimeRef s;
     sourcesRef := v;
     micCtxRef := micCtxRef s;
     nodes := nodes s;
     interval := interval s;
     framesInFlight := framesInFlight s;
     effects := effects s |}.

Definition set_micCtxRef (v : option AudioContext) (s : Scanner) : Scanner :=
  {| active := active s;
     loading := loading s;
     analysisText := analysisText s;
     mouldAlert := mouldAlert s;
     videoRef := videoRef s;
     canvasRef := canvasRef s;
     sessionRef := sessionRef s;
     audioCtxRef := audioCtxRef s;
     nextStartTimeRef := nextStartTimeRef s;
     sourcesRef := sourcesRef s;
     micCtxRef := v;
     nodes := nodes s;
     interval := interval s;
     framesInFlight := framesInFlight s;
     effects := effects s |}.

Definition set_nodes (v : list SourceNode) (s : Scanner) : Scanner :=
  {| active := active s;
     loading := loading s;
     analysisText := analysisText s;
     mouldAlert := mouldAlert s;
     videoRef := videoRef s;
     canvasRef := canvasRef s;
     sessionRef := sessionRef s;
     audioCtxRef := audioCtxRef s;
     nextStartTimeRef := nextStartTimeRef s;
     sourcesRef := sourcesRef s;
     micCtxRef := micCtxRef s;
     nodes := v;
     interval := interval s;
     framesInFlight := framesInFlight s;
     effects := effects s |}.

Definition set_interval (v : bool) (s : Scanner) : Scanner :=
  {| active := active s;
     loading := loading s;
     analysisText := analysisText s;
     mouldAlert := mouldAlert s;
     videoRef := videoRef s;
     canvasRef := canvasRef s;
     sessionRef := sessionRef s;
     audioCtxRef := audioCtxRef s;
     nextStartTimeRef := nextStartTimeRef s;
     sourcesRef := sourcesRef s;
     micCtxRef := micCtxRef s;
     nodes := nodes s;
     interval := v;
     framesInFlight := framesInFlight s;
     effects := effects s |}.

Definition set_framesInFlight (v : list nat) (s : Scanner) : Scanner :=
  {| active := active s;
     loading := loading s;
     analysisText := analysisText s;
     mouldAlert := mouldAlert s;
     videoRef := videoRef s;
     canvasRef := canvasRef s;
     sessionRef := sessionRef s;
     audioCtxRef := audioCtxRef s;
     nextStartTimeRef := nextStartTimeRef s;
     sourcesRef := sourcesRef s;
     micCtxRef := micCtxRef s;
     nodes := nodes s;
     interval := interval s;
     framesInFlight := v;
     effects := effects s |}.

Definition set_effects (v : list Effect) (s : Scanner) : Scanner :=
  {| active := active s;
     loading := loading s;
     analysisText := analysisText s;
     mouldAlert := mouldAlert s;
     videoRef := videoRef s;
     canvasRef := canvasRef s;
     sessionRef := sessionRef s;
     audioCtxRef := audioCtxRef s;
     nextStartTimeRef := nextStartTimeRef s;
     sourcesRef := sourcesRef s;
     micCtxRef := micCtxRef s;
     nodes := nodes s;
     interval := interval s;
     framesInFlight := framesInFlight s;
     effects := v |}.


(** ** The scanner view: handlers

    A handler is a state transformer that may raise. *)

Definition M (A : Type) : Type := Scanner → Result A * Scanner.

#[global] Instance M_ret : MRet M := λ A a s, (Ok a, s).

#[global] Instance M_bind : MBind M := λ A B f m s,
  match m s with
  | (Ok a, s') => f a s'
  | (Throw e, s') => (Throw e, s')
  end.

Definition throw {A} (e : JsError) : M A := λ s, (Throw e, s).

(** [try { body } catch(e) {}]. *)
Definition try_catch (body : M unit) : M unit := λ s, (Ok tt, (body s).2).

Definition read {A} (f : Scanner → A) : M A := λ s, (Ok (f s), s).

Definition update (f : Scanner → Scanner) : M unit := λ s, (Ok tt, f s).

Definition call (e : Effect) : M unit :=
  update (λ s, set_effects (effects s ++ [e]) s).

Definition lift {A} (r : Result A) : M A := λ s, (r, s).

(** [for (const x of l) body] and [l.forEach(body)]. *)
Fixpoint for_each {A} (l : list A) (body : A → M unit) : M unit :=
  match l with
  | [] => mret tt
  | x :: rest => body x;; for_each rest body
  end.

(** [session.close()]. *)
Definition session_close (sess : Session) : M unit :=
  call (CloseSession (session_id sess));;
  if close_throws sess then throw (OtherError None) else mret tt.

(** [track.stop()]. *)
Definition track_stop (t : nat) : M unit := call (StopTrack t).

Definition with_state (st : NodeState) (n : SourceNode) : SourceNode :=
  {| buffer := buffer n; node_state := st |}.

Definition with_buffer (b : AudioBuffer) (n : SourceNode) : SourceNode :=
  {| buffer := Some b; node_state := node_state n |}.

Definition alter_node (f : SourceNode → SourceNode) (h : nat) (s : Scanner) : Scanner :=
  set_nodes (alter f h (nodes s)) s.

(** [source.stop()]: [InvalidStateError] on a node that was never started;
    a node that is scheduled or playing is stopped. *)
Definition source_stop (h : nat) : M unit :=
  call (StopSource h);;
  n ← read (λ s, nodes s !! h);
  match node_state <$> n with
  | Some (Scheduled _) => update (alter_node (with_state Stopped) h)
  | Some Unstarted => throw InvalidStateError
  | Some _ => mret tt
  | None => throw TypeError
  end.

(** [source.start(when)]: [RangeError] on a negative time,
    [InvalidStateError] on a node already started. *)
Definition source_start (h : nat) (when : Q) : M unit :=
  if negb (Qle_bool 0 when) then throw RangeError
  else
    n ← read (λ s, nodes s !! h);
    match node_state <$> n with
    | Some Unstarted => update (alter_node (with_state (Scheduled when)) h)
    | Some _ => throw InvalidStateError
    | None => throw TypeError
    end.

(** [ctx.close()]. *)
Definition ctx_close (c : AudioContext) : M unit := call (CloseContext c).

(** [ctx.createBufferSource()]: a new node; its handle is its position. *)
Definition createBufferSource : M nat :=
  h ← read (λ s, length (nodes s));
  update (λ s, set_nodes (nodes s ++ [{| buffer := None; node_state := Unstarted |}]) s);;
  mret h.

(** [Set.prototype.add] and [Set.prototype.delete], on a set kept in
    insertion order. *)
Definition set_add (h : nat) (l : list nat) : list nat :=
  if bool_decide (h ∈ l) then l else l ++ [h].

Definition set_delete (h : nat) (l : list nat) : list nat :=
  List.filter (λ x, negb (x =? h)%nat) l.

Definition stopScanner : M unit :=
  update (set_active false);;
  update (set_mouldAlert false);;
  sess ← read sessionRef;
  match sess with
  | Some c => try_catch (session_close c);; update (set_sessionRef None)
  | None => mret tt
  end;;
  video ← read videoRef;
  match video ≫= srcObject with
  | Some stream =>
      for_each stream track_stop;;
      update (set_videoRef (Some {| srcObject := None |}))
  | None => mret tt
  end;;
  sources ← read sourcesRef;
  for_each sources (λ source, try_catch (source_stop source));;
  update (set_sourcesRef []);;
  audioCtx ← read audioCtxRef;
  match audioCtx with
  | Some c => try_catch (ctx_close c);; update (set_audioCtxRef None)
  | None => mret tt
  end;;
  micCtx ← read micCtxRef;
  match micCtx with
  | Some c => try_catch (ctx_close c);; update (set_micCtxRef None)
  | None => mret tt
  end;;
  update (set_nextStartTimeRef 0%Q).

(** *** Inbound messages *)

Record Blob := { data : option string }.
Record Part := { inlineData : option Blob }.
Record Content := { parts : option (list Part) }.
Record Transcription := { text : option string }.
Record ServerContent := {
  modelTurn : option Content;
  outputTranscription : option Transcription
}.
Record LiveServerMessage := { serverContent : option ServerContent }.

(** [msg.serverContent?.modelTurn?.parts[0]?.inlineData?.data]: the index
    into [parts] is not guarded. *)
Definition audioOut_of (msg : LiveServerMessage) : Result (option string) :=
  match serverContent msg ≫= modelTurn with
  | None => Ok None
  | Some turn =>
      match parts turn with
      | None => Throw TypeError
      | Some [] => Ok None
      | Some (p :: _) => Ok (inlineData p ≫= data)
      end
  end.

(** The audio branch of [onmessage], entered with the payload and [now], the
    value of [audioCtxRef.current.currentTime]. *)
Definition schedule_audio (now : Q) (audioOut : option string) : M unit :=
  update (λ s, set_nextStartTimeRef (Qmax (nextStartTimeRef s) now) s);;
  bytes ← lift (match audioOut ≫= decode with
                | Some b => Ok b
                | None => Throw InvalidCharacterError
                end);
  buffer ← lift (decodeAudioData bytes 24000 1);
  srcNode ← createBufferSource;
  update (alter_node (with_buffer buffer) srcNode);;
  start ← read nextStartTimeRef;
  source_start srcNode start;;
  update (λ s, set_nextStartTimeRef (nextStartTimeRef s + duration buffer)%Q s);;
  update (λ s, set_sourcesRef (set_add srcNode (sourcesRef s)) s).

(** The transcript branch of [onmessage]. *)
Definition show_transcript (transcription : Transcription) : M unit :=
  match text transcription with
  | None => throw TypeError
  | Some t =>
      let text := JS.toLowerCase t in
      update (set_analysisText text);;
      if mould_condition text
      then update (set_mouldAlert true)
      else update (set_mouldAlert false)
  end.

(** The handler runs to its end without interruption: what follows its
    [await] is resumed before any other callback of the session. *)
Definition onmessage (now : Q) (msg : LiveServerMessage) : M unit :=
  audioOut ← lift (audioOut_of msg);
  audioCtx ← read audioCtxRef;
  (if JS.truthy_string audioOut && bool_decide (is_Some audioCtx)
   then schedule_audio now audioOut
   else mret tt);;
  match serverContent msg ≫= outputTranscription with
  | Some transcription => show_transcript transcription
  | None => mret tt
  end.

(** [srcNode.onended]: the node has played to its end, or was stopped. *)
Definition onended (h : nat) : M unit :=
  n ← read (λ s, nodes s !! h);
  match node_state <$> n with
  | Some (Scheduled _) =>
      update (alter_node (with_state Ended) h);;
      update (λ s, set_sourcesRef (set_delete h (sourcesRef s)) s)
  | Some Stopped => update (λ s, set_sourcesRef (set_delete h (sourcesRef s)) s)
  | _ => mret tt
  end.

(** *** Capture *)

Definition onopen (isGamified : bool) : M unit :=
  update (set_loading false);;
  update (set_analysisText
            (if isGamified then "Magic sensor online! Show me your food."
             else "Neural sensor online. Point at food."));;
  update (set_interval true);;
  update (set_micCtxRef (Some {| ctx_sampleRate := 16000 |})).

(** One firing of the 2000 ms frame timer; [frame] is the image the camera
    shows. Drawing it and starting [toBlob] puts it in flight. [interval]
    tells whether the timer of the session is armed; a timer left armed by an
    earlier session is not told apart from it. *)
Definition interval_tick (frame : nat) : M unit :=
  armed ← read interval;
  if negb armed then mret tt
  else
    sess ← read sessionRef;
    video ← read videoRef;
    canvas ← read canvasRef;
    if negb (bool_decide (is_Some sess) && bool_decide (is_Some video) && canvas)
    then update (set_interval false)
    else update (λ s, set_framesInFlight (framesInFlight s ++ [frame]) s).

(** The oldest frame in flight has been encoded and read: it is sent when
    there is a blob and the session is still there. *)
Definition frame_loadend (blob : bool) : M unit :=
  inFlight ← read framesInFlight;
  match inFlight with
  | [] => mret tt
  | frame :: rest =>
      update (set_framesInFlight rest);;
      sess ← read sessionRef;
      if blob && bool_decide (is_Some sess)
      then call (SendFrame frame) else mret tt
  end.

Definition onaudioprocess (inputData : list Q) : M unit :=
  let base64 := capture_payload inputData in
  sess ← read sessionRef;
  if bool_decide (is_Some sess) then call (SendAudio base64) else mret tt.

(** *** Start and one-shot analysis *)

(** [e.message?.includes('PERMISSION_DENIED')]. *)
Definition permission_denied (message : option string) : bool :=
  match message with
  | Some m => JS.includes m "PERMISSION_DENIED"
  | None => false
  end.

(** What the world answers to one call of [startScanner]: how the awaited
    calls settle, and what the credential prompt resolves to if it is
    opened. *)
Inductive StartOutcome :=
| MediaRejected (message : option string)
| ConnectRejected (stream : list nat) (message : option string)
| Connected (stream : list nat) (sess : Session).

Record StartAttempt := { outcome : StartOutcome; keySelected : bool }.

(** A render: the video and the canvas are mounted while [active]. *)
Definition render (s : Scanner) : Scanner :=
  if active s
  then set_canvasRef true
         (set_videoRef (Some (default {| srcObject := None |} (videoRef s))) s)
  else set_canvasRef false (set_videoRef None s).

Definition attach (stream : list nat) : M unit :=
  video ← read videoRef;
  if bool_decide (is_Some video)
  then update (set_videoRef (Some {| srcObject := Some stream |}))
  else mret tt.

(** [startScanner], with the answers of the world to this call and to the
    calls it makes of itself; with no answer left the call stays at its first
    [await]. *)
Fixpoint startScanner (isNeuralSyncEnabled isGamified : bool)
    (script : list StartAttempt) : M unit :=
  if negb isNeuralSyncEnabled then
    call (Notify (if isGamified
                  then "Magic Voice is off! Turn it on in the header."
                  else "Neural Sync is disabled."))
  else
    update (set_active true);;
    update (set_loading true);;
    update (set_audioCtxRef (Some {| ctx_sampleRate := 24000 |}));;
    call GetUserMedia;;
    match script with
    | [] => mret tt
    | attempt :: rest =>
        let catch (message : option string) : M unit :=
          (if permission_denied message then call KeyPrompt else mret tt);;
          stopScanner;;
          if permission_denied message && keySelected attempt
          then startScanner isNeuralSyncEnabled isGamified rest
          else mret tt in
        update render;;
        match outcome attempt with
        | MediaRejected message => catch message
        | ConnectRejected stream message =>
            attach stream;; call Connect;; catch message
        | Connected stream sess =>
            attach stream;; call Connect;; update (set_sessionRef (Some sess))
        end
    end.

Inductive AnalysisOutcome :=
| AnalysisDone
| AnalyzeRejected (message : option string)
| SpeakRejected (message : option string).

Record CaptureAttempt := {
  hasKey : bool;
  keySelectedFirst : bool;
  analysis : AnalysisOutcome;
  keySelectedAgain : bool
}.

Fixpoint captureFullAnalysis (isGamified : bool) (script : list CaptureAttempt)
  : M unit :=
  match script with
  | [] => mret tt
  | attempt :: rest =>
      video ← read videoRef;
      canvas ← read canvasRef;
      if negb (bool_decide (is_Some video) && canvas) then mret tt
      else
        selected ← (if hasKey attempt then mret true
                    else call KeyPrompt;; mret (keySelectedFirst attempt)
                    : M bool);
        if negb selected then mret tt
        else
          let catch (message : option string) : M bool :=
            if permission_denied message
            then call KeyPrompt;; mret (keySelectedAgain attempt)
            else
              call (Notify (if isGamified then "Magic scan failed!"
                            else "Deep molecular analysis failed."));;
              mret false in
          update (set_loading true);;
          again ← (match analysis attempt with
                   | AnalysisDone =>
                       call AnalyzeImage;; call SpeakReport;; mret false
                   | AnalyzeRejected message =>
                       call AnalyzeImage;; catch message
                   | SpeakRejected message =>
                       call AnalyzeImage;; call SpeakReport;; catch message
                   end : M bool);
          update (set_loading false);;
          if (again : bool) then captureFullAnalysis isGamified rest
          else mret tt
  end.

(** *** The life of the view *)

Inductive Event :=
| EvStart (isNeuralSyncEnabled isGamified : bool) (script : list StartAttempt)
| EvOpen (isGamified : bool)
| EvMessage (now : Q) (msg : LiveServerMessage)
| EvTick (frame : nat)
| EvFrameLoadend (blob : bool)
| EvAudioProcess (inputData : list Q)
| EvEnded (h : nat)
| EvCapture (isGamified : bool) (script : list CaptureAttempt)
| EvRender
| EvStop.

Definition handler (ev : Event) : M unit :=
  match ev with
  | EvStart enabled gamified script => startScanner enabled gamified script
  | EvOpen gamified => onopen gamified
  | EvMessage now msg => onmessage now msg
  | EvTick frame => interval_tick frame
  | EvFrameLoadend blob => frame_loadend blob
  | EvAudioProcess inputData => onaudioprocess inputData
  | EvEnded h => onended h
  | EvCapture gamified script => captureFullAnalysis gamified script
  | EvRender => update render
  | EvStop => stopScanner
  end.

(** An exception ends the handler that raised it and nothing else. *)
Definition step (s : Scanner) (ev : Event) : Scanner := (handler ev s).2.

Definition run (evs : list Event) (s : Scanner) : Scanner := fold_left step evs s.

(** The view as first mounted. *)
Definition mounted (isGamified : bool) : Scanner :=
  {| active := false;
     loading := false;
     analysisText := if isGamified then "Waiting for item..."
                     else "Awaiting identification...";
     mouldAlert := false;
     videoRef := None;
     canvasRef := false;
     sessionRef := None;
     audioCtxRef := None;
     nextStartTimeRef := 0%Q;
     sourcesRef := [];
     micCtxRef := None;
     nodes := [];
     interval := false;
     framesInFlight := [];
     effects := [] |}.

(** ** What a teardown amounts to *)

(** The effect of [source.stop()] on the nodes. *)
Definition stop_node (ns : list SourceNode) (h : nat) : list SourceNode :=
  match node_state <$> ns !! h with
  | Some (Scheduled _) => alter (with_state Stopped) h ns
  | _ => ns
  end.

(** The calls of one [stopScanner], in the order it makes them. *)
Definition teardown_calls (s : Scanner) : list Effect :=
  match sessionRef s with Some c => [CloseSession (session_id c)] | None => [] end
  ++ map StopTrack (default [] (videoRef s ≫= srcObject))
  ++ map StopSource (sourcesRef s)
  ++ match audioCtxRef s with Some c => [CloseContext c] | None => [] end
  ++ match micCtxRef s with Some c => [CloseContext c] | None => [] end.

Definition stopped (s : Scanner) : Scanner :=
  {| active := false;
     loading := loading s;
     analysisText := analysisText s;
     mouldAlert := false;
     videoRef := match videoRef s ≫= srcObject with
                 | Some _ => Some {| srcObject := None |}
                 | None => videoRef s
                 end;
     canvasRef := canvasRef s;
     sessionRef := None;
     audioCtxRef := None;
     nextStartTimeRef := 0%Q;
     sourcesRef := [];
     micCtxRef := None;
     nodes := fold_left stop_node (sourcesRef s) (nodes s);
     interval := interval s;
     framesInFlight := framesInFlight s;
     effects := effects s ++ teardown_calls s |}.

(** The steps of the teardown as the specification names them, and the step
    each call belongs to. *)
Inductive TeardownStep :=
| CloseChannel
| ResetPlayback
| CloseCapture
| ReleaseOutput.

Definition teardown_step (e : Effect) : option TeardownStep :=
  match e with
  | CloseSession _ => Some CloseChannel
  | StopSource _ => Some ResetPlayback
  | StopTrack _ => Some CloseCapture
  | CloseContext c =>
      if ctx_sampleRate c =? 24000 then Some ReleaseOutput else Some CloseCapture
  | _ => None
  end.

Definition step_rank (t : TeardownStep) : nat :=
  match t with
  | CloseChannel => 0
  | ResetPlayback => 1
  | CloseCapture => 2
  | ReleaseOutput => 3
  end.

(** Steps in the order (a), (b), (c), (d): no step is followed by an
    earlier one. *)
Fixpoint in_stated_order (l : list TeardownStep) : bool :=
  match l with
  | [] => true
  | t :: rest =>
      forallb (λ u, step_rank t <=? step_rank u)%nat rest && in_stated_order rest
  end.

(** ** What a message amounts to *)

(** The decoded buffer of a message whose audio payload is played. *)
Definition audio_chunk (msg : LiveServerMessage) : option AudioBuffer :=
  match audioOut_of msg with
  | Ok audioOut =>
      if JS.truthy_string audioOut then
        bytes ← audioOut ≫= decode;
        match decodeAudioData bytes 24000 1 with
        | Ok buffer => Some buffer
        | Throw _ => None
        end
      else None
  | Throw _ => None
  end.

Definition carries_audio (msg : LiveServerMessage) : bool :=
  bool_decide (is_Some (audio_chunk msg)).

(** The state after the audio branch has scheduled [b] at [t]. *)
Definition scheduled (t : Q) (b : AudioBuffer) (s : Scanner) : Scanner :=
  set_sourcesRef (set_add (length (nodes s)) (sourcesRef s))
    (set_nextStartTimeRef (t + duration b)%Q
       (set_nodes (nodes s ++ [{| buffer := Some b; node_state := Scheduled t |}]) s)).

(** All the ways the audio branch can end. *)
Definition schedule_audio_outcome (now : Q) (audioOut : option string) (s : Scanner)
  : Result unit * Scanner :=
  let t := Qmax (nextStartTimeRef s) now in
  let raised := set_nextStartTimeRef t s in
  match audioOut ≫= decode with
  | None => (Throw InvalidCharacterError, raised)
  | Some bytes =>
      match decodeAudioData bytes 24000 1 with
      | Throw e => (Throw e, raised)
      | Ok b =>
          if Qle_bool 0 t then (Ok tt, scheduled t b s)
          else (Throw RangeError,
                set_nodes (nodes s ++ [{| buffer := Some b; node_state := Unstarted |}])
                  raised)
      end
  end.

(** A sequence of inbound messages, each with the clock reading at its
    arrival. *)
Definition messages (msgs : list (Q * LiveServerMessage)) : list Event :=
  map (λ p, EvMessage p.1 p.2) msgs.

(** The clock is behind the cursor at every arrival. *)
Fixpoint clock_behind (s : Scanner) (msgs : list (Q * LiveServerMessage)) : bool :=
  match msgs with
  | [] => true
  | (now, msg) :: rest =>
      Qle_bool now (nextStartTimeRef s) && clock_behind (step s (EvMessage now msg)) rest
  end.

Definition chunks (msgs : list (Q * LiveServerMessage)) : list AudioBuffer :=
  omap (λ p, audio_chunk p.2) msgs.

Definition sum_durations (bs : list AudioBuffer) : Q :=
  fold_right (λ b acc, (duration b + acc)%Q) 0%Q bs.

(** ** Properties kept by handlers *)

Definition preserves {A} (P : Scanner → Prop) (m : M A) : Prop :=
  ∀ s, P s → P (m s).2.

(** The in-flight set holds exactly the handles of the nodes that are
    scheduled. *)
Definition in_flight_exact (s : Scanner) : Prop :=
  ∀ h, h ∈ sourcesRef s ↔
       ∃ n t, nodes s !! h = Some n ∧ node_state n = Scheduled t.

(** The events of a running session: every event but a start and a stop. *)
Definition session_event (ev : Event) : bool :=
  match ev with
  | EvStart _ _ _ | EvStop => false
  | _ => true
  end.

(** ** Sample inputs *)

Definition audio_message (base64 : string) : LiveServerMessage :=
  {| serverContent :=
       Some {| modelTurn :=
                 Some {| parts := Some [{| inlineData := Some {| data := Some base64 |} |}] |};
               outputTranscription := None |} |}.

Definition transcript_message (t : string) : LiveServerMessage :=
  {| serverContent :=
       Some {| modelTurn := None;
               outputTranscription := Some {| text := Some t |} |} |}.

Definition connected_attempt : StartAttempt :=
  {| outcome := Connected [7; 8]%nat {| session_id := 1; close_throws := true |};
     keySelected := false |}.

(** A session that has started, opened, and scheduled one chunk. *)
Definition live_session : Scanner :=
  run [EvStart true false [connected_attempt]; EvOpen false;
       EvMessage 0%Q (audio_message "AQIDBA==")]
      (mounted false).

(** What [source.stop()] does to one node. *)
Definition halt (n : SourceNode) : SourceNode :=
  match node_state n with
  | Scheduled _ => with_state Stopped n
  | _ => n
  end.

Definition is_scheduled (n : SourceNode) : bool :=
  match node_state n with
  | Scheduled _ => true
  | _ => false
  end.

(** The output context is there and the cursor is not negative. *)
Definition playing (s : Scanner) : Prop :=
  is_Some (audioCtxRef s) ∧ (0 <= nextStartTimeRef s)%Q.

(** A session that has started and opened, with nothing scheduled yet. *)
Definition open_session : Scanner :=
  run [EvStart true false [connected_attempt]; EvOpen false] (mounted false).

Definition three_chunks : list (Q * LiveServerMessage) :=
  [(0%Q, audio_message "AQIDBA=="); (0%Q, audio_message "AQIDBAUG");
   (5%Q, audio_message "AQIDBA==")].


(** ** Counting calls *)










Definition is_int16 (v : Z) : Prop := -32768 <= v < 32768.

(** A sample of the range that the conversion to 16 bits keeps. *)
Definition in_range (x : Q) : Prop := (-1 <= x)%Q ∧ (x < 1)%Q.

(** Two samples less than one quantization step apart. *)
Definition within_step (x y : Q) : Prop := (Qabs (y - x) < 1 # 32768)%Q.

(** The callbacks that can still fire once the session is gone. *)
Definition late_event (ev : Event) : bool :=
  match ev with
  | EvMessage _ _ | EvTick _ | EvFrameLoadend _ | EvAudioProcess _ | EvEnded _
  | EvRender => true
  | _ => false
  end.

(** Every scheduled node plays a buffer, starts at a time that is not
    negative and ends by the cursor; and of two scheduled nodes the one
    created first ends before the other starts. *)
Definition no_overlap (s : Scanner) : Prop :=
  (0 <= nextStartTimeRef s)%Q
  ∧ (∀ h n t, nodes s !! h = Some n → node_state n = Scheduled t →
              ∃ b, buffer n = Some b ∧ (0 <= t)%Q
                   ∧ (t + duration b <= nextStartTimeRef s)%Q)
  ∧ (∀ h1 h2 n1 n2 t1 t2 b1,
       (h1 < h2)%nat →
       nodes s !! h1 = Some n1 → nodes s !! h2 = Some n2 →
       node_state n1 = Scheduled t1 → node_state n2 = Scheduled t2 →
       buffer n1 = Some b1 → (t1 + duration b1 <= t2)%Q).

Definition well_scheduled (s : Scanner) : Prop := in_flight_exact s ∧ no_overlap s.

(** ** Platform: more string methods *)

Module Text.

Definition newline : ascii := ascii_of_N 10.

(** [s.indexOf(c)] for a one-character [c]; -1 when [c] does not occur. *)
Fixpoint indexOf (s : string) (c : ascii) : Z :=
  match s with
  | EmptyString => -1
  | String a r =>
      if Ascii.eqb a c then 0
      else let i := indexOf r c in if i =? -1 then -1 else i + 1
  end.

(** [s.lastIndexOf(c)]. *)
Fixpoint lastIndexOf (s : string) (c : ascii) : Z :=
  match s with
  | EmptyString => -1
  | String a r =>
      let i := lastIndexOf r c in
      if i =? -1 then (if Ascii.eqb a c then 0 else -1) else i + 1
  end.

(** [s.substring(start, end)]: both indices are clamped to the string and
    swapped when out of order. *)
Definition substring (s : string) (start stop : Z) : string :=
  let len := Z.of_nat (String.length s) in
  let a := Z.max 0 (Z.min start len) in
  let b := Z.max 0 (Z.min stop len) in
  String.substring (Z.to_nat (Z.min a b)) (Z.to_nat (Z.max a b - Z.min a b)) s.

(** White space and line terminators, among the code units below 256. *)
Definition is_whitespace (c : ascii) : bool :=
  let n := JS.charCodeAt c in
  ((9 <=? n) && (n <=? 13)) || (n =? 32) || (n =? 160).

Fixpoint trimStart (s : string) : string :=
  match s with
  | EmptyString => EmptyString
  | String c r => if is_whitespace c then trimStart r else s
  end.

Definition reverse (s : string) : string :=
  string_of_list_ascii (rev (list_ascii_of_string s)).

(** [s.trim()]. *)
Definition trim (s : string) : string :=
  reverse (trimStart (reverse (trimStart s))).

(** [s.split(c)] for a one-character separator. *)
Fixpoint split (s : string) (c : ascii) : list string :=
  match s with
  | EmptyString => [EmptyString]
  | String a r =>
      if Ascii.eqb a c then EmptyString :: split r c
      else match split r c with
           | [] => [String a EmptyString]
           | piece :: pieces => String a piece :: pieces
           end
  end.

Definition is_digit (c : ascii) : bool :=
  let n := JS.charCodeAt c in (48 <=? n) && (n <=? 57).

(** The longest run of digits at the start of [s], and what follows it. *)
Fixpoint take_digits (s : string) : string * string :=
  match s with
  | EmptyString => (EmptyString, EmptyString)
  | String c r =>
      if is_digit c
      then let (ds, rest) := take_digits r in (String c ds, rest)
      else (EmptyString, s)
  end.

(** The number that a run of digits writes, read from the left. *)
Fixpoint digits_value (acc : Z) (ds : string) : Z :=
  match ds with
  | EmptyString => acc
  | String c r => digits_value (10 * acc + (JS.charCodeAt c - 48)) r
  end.

(** [Math.round]: the nearest integer, a half going up. *)
Definition round (x : Q) : Z := Qfloor (x + (1 # 2)).

(** A number in a template literal, for an integer. *)
Definition string_of_Z (n : Z) : string :=
  DecimalString.NilZero.string_of_int (Z.to_int n).

End Text.

(** ** [cleanJson] of [geminiService.ts] *)

Definition fence : string := "```".
Definition fence_json : string := "```json".

(** [text.replace(/```json\n?|\n?```/g, '')]: at each position the first
    alternative is tried before the second, and an optional newline is taken
    when it is there. [skip] counts the characters of a match still to be
    dropped. *)
Fixpoint strip_fences (skip : nat) (text : string) : string :=
  match text with
  | EmptyString => EmptyString
  | String c r =>
      match skip with
      | S k => strip_fences k r
      | O =>
          if JS.startsWith text (fence_json ++ String Text.newline EmptyString)
          then strip_fences 7 r
          else if JS.startsWith text fence_json then strip_fences 6 r
          else if JS.startsWith text (String Text.newline fence) then strip_fences 3 r
          else if JS.startsWith text fence then strip_fences 2 r
          else String c (strip_fences 0 r)
      end
  end.

Definition cleanJson (text : string) : string :=
  match text with
  | EmptyString => "{}"
  | _ =>
      let firstBracket := Text.indexOf text "[" in
      let firstBrace := Text.indexOf text "{" in
      let '(start, stop) :=
        if negb (firstBracket =? -1)
           && ((firstBrace =? -1) || (firstBracket <? firstBrace))
        then (firstBracket, Text.lastIndexOf text "]")
        else if negb (firstBrace =? -1)
             then (firstBrace, Text.lastIndexOf text "}")
             else (-1, -1) in
      if negb (start =? -1) && negb (stop =? -1) && (start <? stop)
      then Text.substring text start (stop + 1)
      else Text.trim (strip_fences 0 text)
  end.

(** ** [estimateItemPrice] and [estimateItemCalories] of [geminiService.ts] *)

(** The first match of [/\d+/]. *)
Fixpoint match_digits (text : string) : option string :=
  match text with
  | EmptyString => None
  | String c r =>
      if Text.is_digit c then Some (Text.take_digits text).1 else match_digits r
  end.

(** The first match of [/\d+(\.\d+)?/]: the digits, and the digits of the
    fraction when a point and a digit follow. *)
Fixpoint match_decimal (text : string) : option (string * string) :=
  match text with
  | EmptyString => None
  | String c r =>
      if Text.is_digit c then
        let (whole, rest) := Text.take_digits text in
        match rest with
        | String "." after =>
            let (fraction, _) := Text.take_digits after in
            Some (whole, fraction)
        | _ => Some (whole, EmptyString)
        end
      else match_decimal r
  end.

(** [parseFloat] of such a match. *)
Definition parse_decimal (m : string * string) : Q :=
  (inject_Z (Text.digits_value 0 m.1)
   + inject_Z (Text.digits_value 0 m.2) / inject_Z (10 ^ Z.of_nat (String.length m.2)))%Q.

(** The part of [estimateItemPrice] after the request: [response] is the
    text of the answer, or the error of the request. *)
Definition estimateItemPrice (response : Result (option string)) : Q :=
  match response with
  | Ok text =>
      match match_decimal (default EmptyString text) with
      | Some m => parse_decimal m
      | None => 5%Q
      end
  | Throw _ => 5%Q
  end.

Definition estimateItemCalories (response : Result (option string)) : Z :=
  match response with
  | Ok text =>
      match match_digits (default EmptyString text) with
      | Some m => Text.digits_value 0 m
      | None => 0
      end
  | Throw _ => 0
  end.

(** ** [ExpiryBadge] *)

Record Badge := { colorClass : string; badge_text : string }.

Definition day_ms : Z := 1000 * 60 * 60 * 24.

(** The badge, from the two local midnights in milliseconds; the time of an
    invalid expiry date is [None] (NaN). *)
Definition ExpiryBadge (expiryTime : option Z) (todayTime : Z) : Badge :=
  match expiryTime with
  | None =>
      {| colorClass := "bg-green-100 text-green-800 border-green-200 dark:bg-emerald-900/30 dark:text-emerald-400 dark:border-emerald-800";
         badge_text := "NaN days left" |}
  | Some expiry =>
      let diffTime := expiry - todayTime in
      let diffDays := Text.round (inject_Z diffTime / inject_Z day_ms) in
      if diffDays <? 0 then
        {| colorClass := "bg-slate-200 text-slate-800 border-slate-300 dark:bg-slate-700 dark:text-slate-400 dark:border-slate-600";
           badge_text := "Expired" |}
      else if diffDays =? 0 then
        {| colorClass := "bg-orange-100 text-orange-800 border-orange-200 dark:bg-orange-900/30 dark:text-orange-400 dark:border-orange-800";
           badge_text := "Expires Today" |}
      else if diffDays <=? 3 then
        {| colorClass := "bg-red-100 text-red-800 border-red-200 dark:bg-red-900/30 dark:text-red-400 dark:border-red-800";
           badge_text := Text.string_of_Z diffDays ++ " days left" |}
      else if diffDays <=? 7 then
        {| colorClass := "bg-yellow-50 text-yellow-800 border-yellow-100 dark:bg-yellow-900/30 dark:text-yellow-400 dark:border-yellow-800";
           badge_text := Text.string_of_Z diffDays ++ " days left" |}
      else
        {| colorClass := "bg-green-100 text-green-800 border-green-200 dark:bg-emerald-900/30 dark:text-emerald-400 dark:border-emerald-800";
           badge_text := Text.string_of_Z diffDays ++ " days left" |}
  end.

(** ** Data URLs *)

(** What [reader.readAsDataURL] gives for a file of the given type and
    bytes. *)
Definition data_url (mime : string) (bytes : list Z) : string :=
  ("data:" ++ mime ++ ";base64," ++ encode bytes)%string.

(** [result.split(',')[1]], in [handleFileChange] and in the two captures of
    the scanner. *)
Definition data_url_payload (result : string) : option string :=
  Text.split result "," !! 1%nat.

(** [c] does not occur in [s]. *)
Definition absent (c : ascii) (s : string) : Prop := Text.indexOf s c = -1.

(** The two shapes of JSON text that [cleanJson] looks for. *)
Definition json_delimiters (opener closer : ascii) : Prop :=
  (opener = "{"%char ∧ closer = "}"%char) ∨ (opener = "["%char ∧ closer = "]"%char).

(** Every character of [s] satisfies [p]. *)
Fixpoint string_forallb (p : ascii → bool) (s : string) : bool :=
  match s with
  | EmptyString => true
  | String c r => p c && string_forallb p r
  end.

Definition digit_free (s : string) : bool :=
  string_forallb (λ c, negb (Text.is_digit c)) s.




(** The answer carries no number: the request failed, or its text is missing
    or has no digit. *)
Definition no_number (response : Result (option string)) : bool :=
  match response with
  | Ok (Some text) => digit_free text
  | Ok None => true
  | Throw _ => true
  end.

(** * Properties *)

(** ** Base64 round trip *)

Section Base64Facts.

Import Base64.

Lemma list_ind3 {A} (P : list A → Prop) :
  P [] → (∀ a, P [a]) → (∀ a b, P [a; b]) →
  (∀ a b c l, P l → P (a :: b :: c :: l)) →
  ∀ l, P l.
Proof.
  intros H0 H1 H2 H3.
  assert (H : ∀ l, P l ∧ (∀ a, P (a :: l)) ∧ (∀ a b, P (a :: b :: l))).
  { induction l as [|x l [IH0 [IH1 IH2]]]; [by auto|].
    split; [apply IH1|]. split; [intros a; apply IH2|].
  intros a b. by apply H3. }
  intros l. apply H.
Qed.

Lemma sextets_in_range bs :
  Forall is_byte bs → Forall is_sextet (sextets_of_bytes bs).
Proof.
  unfold is_byte, is_sextet.
  induction bs as [|a|a b|a b c l IH] using list_ind3; intros H; simpl.
  - constructor.
  - inversion_clear H. repeat constructor;
      Z.to_euclidean_division_equations; lia.
  - inversion_clear H as [|?? Ha H']. inversion_clear H' as [|?? Hb _].
    repeat constructor; Z.to_euclidean_division_equations; lia.
  - inversion_clear H as [|?? Ha H']. inversion_clear H' as [|?? Hb H''].
    inversion_clear H'' as [|?? Hc Hl].
    repeat (constructor; [Z.to_euclidean_division_equations; lia|]).
    by apply IH.
Qed.

Lemma bytes_of_sextets_of_bytes bs :
  Forall is_byte bs → bytes_of_sextets (sextets_of_bytes bs) = bs.
Proof.
  unfold is_byte.
  induction bs as [|a|a b|a b c l IH] using list_ind3; intros H.
  - reflexivity.
  - inversion_clear H. simpl. f_equal.
    Z.to_euclidean_division_equations; lia.
  - inversion_clear H as [|?? Ha H']. inversion_clear H' as [|?? Hb _].
    simpl. repeat f_equal; Z.to_euclidean_division_equations; lia.
  - inversion_clear H as [|?? Ha H']. inversion_clear H' as [|?? Hb H''].
    inversion_clear H'' as [|?? Hc Hl].
    cbn [sextets_of_bytes bytes_of_sextets]. rewrite IH by done.
    repeat f_equal; Z.to_euclidean_division_equations; lia.
Qed.


Lemma sextet_char_inverse n :
  is_sextet n →
  sextet_of_char (char_of_sextet n) = Some n
  ∧ is_ascii_whitespace (char_of_sextet n) = false
  ∧ Ascii.eqb (char_of_sextet n) pad = false.
Proof.
  intros Hn. unfold is_sextet in Hn.
  assert (∃ k, n = Z.of_nat k ∧ (k < 64)%nat) as (k & -> & Hk).
  { exists (Z.to_nat n). lia. }
  do 64 (destruct k as [|k]; [by vm_compute|]). lia.
Qed.

Lemma sextets_of_chars_of_sextets ss :
  Forall is_sextet ss → sextets_of_chars (map char_of_sextet ss) = Some ss.
Proof.
  induction 1 as [|s ss Hs _ IH]; [done|].
  cbn [map sextets_of_chars].
  destruct (sextet_char_inverse s Hs) as (-> & _ & _). cbn. by rewrite IH.
Qed.

Lemma filter_whitespace_encoded bs :
  Forall is_byte bs →
  List.filter (fun c => negb (is_ascii_whitespace c)) (base64_encode bs)
  = base64_encode bs.
Proof.
  intros Hbs. apply forallb_filter_id, forallb_forall.
  intros c Hc. unfold base64_encode in Hc. apply in_app_or in Hc as [Hc|Hc].
  - apply in_map_iff in Hc as (s & <- & Hs).
    pose proof (sextets_in_range bs Hbs) as Hr.
    rewrite Forall_forall in Hr. apply list_elem_of_In, Hr in Hs.
    by destruct (sextet_char_inverse s Hs) as (_ & -> & _).
  - clear Hbs. revert c Hc.
    induction bs as [|a|a b|a b x l IH] using list_ind3; intros c Hc;
      cbn in Hc; [done| | |by apply IH];
      repeat (destruct Hc as [<-|Hc]; [done|]); done.
Qed.

(** The shape of an encoding: a multiple of four characters, of which the
    last one or two may be padding. *)
Lemma encoded_shape bs :
  let d := sextets_of_bytes bs in
  let p := padding bs in
  (∃ q, (length d + length p = 4 * q)%nat)
  ∧ (∃ q r, (length d = 4 * q + r)%nat ∧ (r = 0 ∨ r = 2 ∨ r = 3)%nat)
  ∧ (p = [] ∨ (d ≠ [] ∧ (p = [pad] ∨ p = [pad; pad]))).
Proof.
  induction bs as [|a|a b|a b c l IH] using list_ind3; cbn.
  - split; [by exists 0%nat|]. split; [exists 0%nat, 0%nat; lia|by left].
  - split; [by exists 1%nat|]. split; [exists 0%nat, 2%nat; lia|]. right. eauto.
  - split; [by exists 1%nat|]. split; [exists 0%nat, 3%nat; lia|]. right. eauto.
  - destruct IH as ((q & Hq) & (q' & r & Hq' & Hr) & Hp).
    split; [exists (S q); lia|]. split; [exists (S q'), r; lia|].
    destruct Hp as [Hp|[_ Hp]]; [by left|right]. done.
Qed.

Lemma mod4_multiple q : ((4 * q) mod 4 =? 0)%nat = true.
Proof. rewrite Nat.mul_comm, Nat.Div0.mod_mul. done. Qed.

Lemma mod4_remainder q r :
  (r = 0 ∨ r = 2 ∨ r = 3)%nat → ((4 * q + r) mod 4 =? 1)%nat = false.
Proof.
  intros Hr. rewrite Nat.add_comm, Nat.mul_comm, Nat.Div0.mod_add.
  by destruct Hr as [->|[->| ->]].
Qed.

Lemma strip_padding_encoded bs :
  Forall is_byte bs →
  strip_padding (base64_encode bs) = map char_of_sextet (sextets_of_bytes bs).
Proof.
  intros Hbs. pose proof (sextets_in_range bs Hbs) as Hr.
  destruct (encoded_shape bs) as ((q & Hq) & _ & Hp).
  unfold base64_encode, strip_padding.
  rewrite length_app, length_map, Hq, mod4_multiple, rev_app_distr.
  set (d := sextets_of_bytes bs) in *.
  assert (Hlast : ∀ c r, rev (map char_of_sextet d) = c :: r →
                         Ascii.eqb c pad = false).
  { intros c r Hc.
    assert (In c (map char_of_sextet d)) as Hin.
    { apply in_rev. rewrite Hc. by left. }
    apply in_map_iff in Hin as (s & <- & Hs).
    rewrite Forall_forall in Hr. apply list_elem_of_In, Hr in Hs.
    by destruct (sextet_char_inverse s Hs) as (_ & _ & ->). }
  assert (Hne : d ≠ [] → rev (map char_of_sextet d) ≠ []).
  { intros Hd Hrev. apply (f_equal (@rev ascii)) in Hrev.
    rewrite rev_involutive in Hrev. by destruct d. }
  destruct Hp as [->|[Hd [-> | ->]]]; cbn [rev app].
  - rewrite app_nil_r.
    destruct (rev (map char_of_sextet d)) as [|c1 [|c2 r]] eqn:Hrev; [done| |];
      by rewrite (Hlast _ _ eq_refl).
  - destruct (rev (map char_of_sextet d)) as [|c2 r] eqn:Hrev;
      [by apply Hne in Hd|].
    rewrite Ascii.eqb_refl, (Hlast _ _ eq_refl).
    change (rev r ++ [c2]) with (rev (c2 :: r)). rewrite <- Hrev.
    apply rev_involutive.
  - rewrite !Ascii.eqb_refl. apply rev_involutive.
Qed.

Lemma forgiving_base64_decode_encode bs :
  Forall is_byte bs → forgiving_base64_decode (base64_encode bs) = Some bs.
Proof.
  intros Hbs. unfold forgiving_base64_decode.
  rewrite filter_whitespace_encoded, strip_padding_encoded by done.
  destruct (encoded_shape bs) as (_ & (q & r & Hq & Hr) & _).
  rewrite length_map, Hq, mod4_remainder by done.
  rewrite sextets_of_chars_of_sextets by by apply sextets_in_range.
  cbn. by rewrite bytes_of_sextets_of_bytes.
Qed.

Lemma charCodeAt_fromCharCode b :
  is_byte b → JS.charCodeAt (JS.fromCharCode b) = b.
Proof.
  unfold is_byte, JS.charCodeAt, JS.fromCharCode. intros Hb.
  rewrite N_ascii_embedding; lia.
Qed.

Lemma char_codes_of_binary bytes :
  Forall is_byte bytes →
  map JS.charCodeAt (list_ascii_of_string (binary_of_bytes bytes)) = bytes.
Proof.
  induction 1 as [|b bs Hb _ IH]; [done|].
  cbn. by rewrite charCodeAt_fromCharCode, IH.
Qed.

Lemma bytes_of_binary_chars bytes :
  Forall is_byte bytes →
  bytes_of_binary (string_of_list_ascii (map JS.fromCharCode bytes)) = bytes.
Proof.
  induction 1 as [|b bs Hb _ IH]; [done|].
  cbn. rewrite charCodeAt_fromCharCode, IH by done.
  unfold JS.ToUint8. unfold is_byte in Hb. f_equal. apply Z.mod_small. lia.
Qed.

(** C10: [decode] undoes [encode]: for every byte array, decoding the
    base64 text that [encode] produces succeeds and gives back the same
    bytes. *)
Theorem decode_encode (bytes : list Z) :
  Forall is_byte bytes → decode (encode bytes) = Some bytes.
Proof.
  intros Hb. unfold decode, encode, atob, btoa.
  rewrite list_ascii_of_string_of_list_ascii, char_codes_of_binary by done.
  rewrite forgiving_base64_decode_encode by done.
  cbn. by rewrite bytes_of_binary_chars.
Qed.

Lemma decode_encode_witness :
  Forall is_byte [72; 105; 0; 255]
  ∧ decode (encode [72; 105; 0; 255]) = Some [72; 105; 0; 255].
Proof.
  assert (H : Forall is_byte [72; 105; 0; 255]).
  { repeat constructor; unfold is_byte; lia. }
  split; [exact H|]. exact (decode_encode [72; 105; 0; 255] H).
Defined.

End Base64Facts.

(** ** Teardown *)

(** Projections of updated states, computed. *)
Ltac scanner_simpl :=
  cbv beta iota zeta delta [active loading analysisText mouldAlert videoRef canvasRef sessionRef audioCtxRef nextStartTimeRef sourcesRef micCtxRef nodes interval framesInFlight effects set_active set_loading set_analysisText set_mouldAlert set_videoRef set_canvasRef set_sessionRef set_audioCtxRef set_nextStartTimeRef set_sourcesRef set_micCtxRef set_nodes set_interval set_framesInFlight set_effects mbind option_bind default id srcObject].

Section Teardown.

Lemma set_effects_twice a b s : set_effects a (set_effects b s) = set_effects a s.
Proof. done. Qed.

Lemma for_each_track_stop l s :
  for_each l track_stop s = (Ok tt, set_effects (effects s ++ map StopTrack l) s).
Proof.
  revert s. induction l as [|t l IH]; intros s.
  - cbn. rewrite app_nil_r. by destruct s.
  - cbn. unfold mbind, M_bind, track_stop, call, update. rewrite IH.
    cbn. by rewrite <- app_assoc.
Qed.

Lemma try_source_stop h s :
  try_catch (source_stop h) s
  = (Ok tt, set_nodes (stop_node (nodes s) h)
              (set_effects (effects s ++ [StopSource h]) s)).
Proof.
  destruct s as [? ? ? ? ? ? ? ? ? ? ? ns ? ? ?].
  unfold try_catch, source_stop, stop_node, mbind, M_bind, call, update, read.
  cbn. destruct (ns !! h) as [[b [| |  |]]|]; done.
Qed.

Lemma for_each_source_stop l s :
  for_each l (λ source, try_catch (source_stop source)) s
  = (Ok tt, set_nodes (fold_left stop_node l (nodes s))
              (set_effects (effects s ++ map StopSource l) s)).
Proof.
  revert s. induction l as [|h l IH]; intros s.
  - cbn. rewrite app_nil_r. by destruct s.
  - cbn [for_each]. unfold mbind at 1, M_bind at 1.
    rewrite try_source_stop, IH. cbn. by rewrite <- app_assoc.
Qed.

Lemma bind_update {A} f (k : M A) s : (update f;; k) s = k (f s).
Proof. done. Qed.

Lemma bind_read {A B} (f : Scanner → A) (k : A → M B) s :
  (x ← read f; k x) s = k (f s) s.
Proof. done. Qed.

Lemma bind_ok {A B} (m : M A) (k : A → M B) s a s' :
  m s = (Ok a, s') → (m ≫= k) s = k a s'.
Proof. unfold mbind, M_bind. by intros ->. Qed.

Lemma try_session_close c s :
  try_catch (session_close c) s
  = (Ok tt, set_effects (effects s ++ [CloseSession (session_id c)]) s).
Proof. by destruct c as [sid [|]]. Qed.

Lemma try_ctx_close c s :
  try_catch (ctx_close c) s = (Ok tt, set_effects (effects s ++ [CloseContext c]) s).
Proof. done. Qed.

Lemma session_phase o s :
  (match o with
   | Some c => try_catch (session_close c);; update (set_sessionRef None)
   | None => mret tt
   end) s
  = (Ok tt, match o with
            | Some c =>
                set_sessionRef None
                  (set_effects (effects s ++ [CloseSession (session_id c)]) s)
            | None => s
            end).
Proof. destruct o as [[sid [|]]|]; done. Qed.

Lemma video_phase o s :
  (match o with
   | Some stream =>
       for_each stream track_stop;;
       update (set_videoRef (Some {| srcObject := None |}))
   | None => mret tt
   end) s
  = (Ok tt, match o with
            | Some stream =>
                set_videoRef (Some {| srcObject := None |})
                  (set_effects (effects s ++ map StopTrack stream) s)
            | None => s
            end).
Proof.
  destruct o as [stream|]; [|done].
  by rewrite (bind_ok _ _ _ _ _ (for_each_track_stop _ _)).
Qed.

Lemma context_phase o (clear : Scanner → Scanner) s :
  (match o with
   | Some c => try_catch (ctx_close c);; update clear
   | None => mret tt
   end) s
  = (Ok tt, match o with
            | Some c => clear (set_effects (effects s ++ [CloseContext c]) s)
            | None => s
            end).
Proof. by destruct o. Qed.

Ltac run_step :=
  first
    [ rewrite bind_update
    | rewrite bind_read
    | rewrite (bind_ok _ _ _ _ _ (session_phase _ _))
    | rewrite (bind_ok _ _ _ _ _ (video_phase _ _))
    | rewrite (bind_ok _ _ _ _ _ (context_phase _ _ _))
    | rewrite (bind_ok _ _ _ _ _ (for_each_source_stop _ _)) ];
  cbn beta.

(** [stopScanner] never raises, and leaves the state [stopped s]. *)
Lemma stopScanner_eq s : stopScanner s = (Ok tt, stopped s).
Proof.
  unfold stopScanner.
  repeat run_step.
  unfold stopped, teardown_calls.
  destruct s as [a l t m v c se ac n so mc ns i f e].
  destruct se as [sess|], v as [[[stream|]]|], ac as [?|], mc as [?|];
    unfold update; scanner_simpl;
    rewrite ?app_nil_r, <- ?app_assoc; cbn [app map]; reflexivity.
Qed.

Lemma stopped_stopped s : stopped (stopped s) = stopped s.
Proof.
  destruct s as [a l t m v c se ac n so mc ns i f e].
  unfold stopped, teardown_calls.
  destruct v as [[[stream|]]|]; scanner_simpl; cbn [map app fold_left];
    by rewrite app_nil_r.
Qed.

Lemma stopped_mounted g : stopped (mounted g) = mounted g.
Proof. done. Qed.

(** C5: [stopScanner] never raises; a second call right after a first one
    changes nothing, neither the state nor the calls made on the session,
    the tracks, the playback handles and the audio contexts; and on a view
    that was never started it changes nothing at all. *)
Theorem stopScanner_idempotent (s : Scanner) (isGamified : bool) :
  (stopScanner s).1 = Ok tt
  ∧ stopScanner (stopScanner s).2 = (Ok tt, (stopScanner s).2)
  ∧ stopScanner (mounted isGamified) = (Ok tt, mounted isGamified).
Proof.
  rewrite !stopScanner_eq. cbn [fst snd].
  by rewrite stopped_stopped, stopped_mounted.
Qed.

Lemma teardown_steps s :
  omap teardown_step (teardown_calls s)
  = match sessionRef s with Some _ => [CloseChannel] | None => [] end
    ++ replicate (length (default [] (videoRef s ≫= srcObject))) CloseCapture
    ++ replicate (length (sourcesRef s)) ResetPlayback
    ++ omap teardown_step
         (match audioCtxRef s with Some c => [CloseContext c] | None => [] end
          ++ match micCtxRef s with Some c => [CloseContext c] | None => [] end).
Proof.
  unfold teardown_calls. rewrite !omap_app. f_equal; [by destruct (sessionRef s)|].
  f_equal; [|f_equal].
  - induction (default [] (videoRef s ≫= srcObject)) as [|x l IH]; [done|].
    cbn. by rewrite <- IH.
  - induction (sourcesRef s) as [|x l IH]; [done|]. cbn. by rewrite <- IH.
Qed.

(** C4, counterexample: on a live session the calls of one teardown are, by
    step, (a), (c), (c), (b), (d), (c): the capture tracks are stopped before
    the playback handle is, and the microphone context is closed after the
    output context. *)
Lemma teardown_order_counterexample :
  omap teardown_step (teardown_calls live_session)
  = [CloseChannel; CloseCapture; CloseCapture; ResetPlayback; ReleaseOutput;
     CloseCapture]
  ∧ effects (step live_session EvStop)
    = effects live_session ++ teardown_calls live_session
  ∧ in_stated_order (omap teardown_step (teardown_calls live_session)) = false.
Proof. by vm_compute. Qed.

(** C4, amended: [stopScanner] never raises, whatever the session's close or
    a handle's stop does, and makes its calls in this order: the session is
    closed; every capture track is stopped; every in-flight playback handle
    is stopped; the output context is closed; the microphone context is
    closed. It leaves the frame timer as it was: the timer is cancelled by
    its own next firing, which captures nothing. *)
Theorem teardown_order (s : Scanner) (frame : nat) :
  let s' := (stopScanner s).2 in
  (stopScanner s).1 = Ok tt
  ∧ effects s' = effects s ++ teardown_calls s
  ∧ omap teardown_step (teardown_calls s)
    = match sessionRef s with Some _ => [CloseChannel] | None => [] end
      ++ replicate (length (default [] (videoRef s ≫= srcObject))) CloseCapture
      ++ replicate (length (sourcesRef s)) ResetPlayback
      ++ omap teardown_step
           (match audioCtxRef s with Some c => [CloseContext c] | None => [] end
            ++ match micCtxRef s with Some c => [CloseContext c] | None => [] end)
  ∧ interval s' = interval s
  ∧ interval (step s' (EvTick frame)) = false
  ∧ framesInFlight (step s' (EvTick frame)) = framesInFlight s.
Proof.
  cbn zeta. rewrite stopScanner_eq. cbn [fst snd].
  split; [done|]. split; [done|]. split; [apply teardown_steps|].
  split; [done|].
  assert (Htick : step (stopped s) (EvTick frame) = set_interval false (stopped s)).
  { unfold step, handler, interval_tick. rewrite bind_read.
    change (interval (stopped s)) with (interval s).
    destruct (interval s) eqn:Hi; cbn [negb].
    - by rewrite !bind_read.
    - destruct s; cbn in Hi; by subst. }
  by rewrite Htick.
Qed.

End Teardown.

(** ** Handlers, step by step *)

Section Steps.

Lemma bind_lift_ok {A B} (a : A) (k : A → M B) s : (lift (Ok a) ≫= k) s = k a s.
Proof. done. Qed.

Lemma bind_lift_throw {A B} e (k : A → M B) s :
  (lift (Throw e) ≫= k) s = (Throw e, s).
Proof. done. Qed.

Lemma createBufferSource_eq s :
  createBufferSource s
  = (Ok (length (nodes s)),
     set_nodes (nodes s ++ [{| buffer := None; node_state := Unstarted |}]) s).
Proof. done. Qed.

Lemma lookup_fresh {A} (l : list A) x : (l ++ [x]) !! length l = Some x.
Proof. by apply list_lookup_middle. Qed.

Lemma alter_fresh {A} (f : A → A) (l : list A) x :
  alter f (length l) (l ++ [x]) = l ++ [f x].
Proof.
  replace (length l) with (length l + 0)%nat by lia. by rewrite alter_app_r.
Qed.

Lemma start_fresh b t s :
  source_start (length (nodes s)) t
    (alter_node (with_buffer b) (length (nodes s))
       (set_nodes (nodes s ++ [{| buffer := None; node_state := Unstarted |}]) s))
  = if Qle_bool 0 t
    then (Ok tt, set_nodes (nodes s ++ [{| buffer := Some b; node_state := Scheduled t |}]) s)
    else (Throw RangeError,
          set_nodes (nodes s ++ [{| buffer := Some b; node_state := Unstarted |}]) s).
Proof.
  destruct s as [a l x m v c se ac n so mc ns i f ef].
  unfold source_start, alter_node. scanner_simpl. rewrite alter_fresh.
  destruct (Qle_bool 0 t); cbn [negb]; [|done].
  rewrite bind_read. scanner_simpl. rewrite lookup_fresh.
  cbn [fmap option_fmap option_map with_buffer node_state].
  unfold update, alter_node. scanner_simpl. by rewrite alter_fresh.
Qed.

Lemma schedule_audio_eq now audioOut s :
  schedule_audio now audioOut s = schedule_audio_outcome now audioOut s.
Proof.
  unfold schedule_audio, schedule_audio_outcome. rewrite bind_update. cbn beta zeta.
  destruct (audioOut ≫= decode) as [bytes|]; [|done].
  rewrite bind_lift_ok.
  destruct (decodeAudioData bytes 24000 1) as [b|e]; [|done].
  rewrite bind_lift_ok.
  rewrite (bind_ok _ _ _ _ _ (createBufferSource_eq _)).
  rewrite bind_update, bind_read.
  unfold mbind at 1, M_bind at 1.
  rewrite (start_fresh b _ (set_nextStartTimeRef (Qmax (nextStartTimeRef s) now) s)).
  change (nextStartTimeRef (alter_node _ _ _)) with (Qmax (nextStartTimeRef s) now).
  destruct (Qle_bool 0 (Qmax (nextStartTimeRef s) now)); [|by destruct s].
  rewrite !bind_update. unfold update, scheduled. by destruct s.
Qed.

End Steps.

(** ** Properties kept by the handlers *)

Section Preservation.

Context (P : Scanner → Prop).

Lemma preserves_ret {A} (a : A) : preserves P (mret a).
Proof. by intros s. Qed.

Lemma preserves_throw {A} e : preserves P (@throw A e).
Proof. by intros s. Qed.

Lemma preserves_lift {A} (r : Result A) : preserves P (lift r).
Proof. by intros s. Qed.

Lemma preserves_read {A} (f : Scanner → A) : preserves P (read f).
Proof. by intros s. Qed.

Lemma preserves_update f : (∀ s, P s → P (f s)) → preserves P (update f).
Proof. intros Hf s. apply Hf. Qed.

Lemma preserves_bind {A B} (m : M A) (k : A → M B) :
  preserves P m → (∀ a, preserves P (k a)) → preserves P (m ≫= k).
Proof.
  intros Hm Hk s Hs. unfold mbind, M_bind. specialize (Hm s Hs).
  destruct (m s) as [[a|e] s']; [by apply Hk|done].
Qed.

Lemma preserves_try_catch m : preserves P m → preserves P (try_catch m).
Proof. intros Hm s Hs. by apply Hm. Qed.

Lemma preserves_for_each {A} (l : list A) body :
  (∀ x, preserves P (body x)) → preserves P (for_each l body).
Proof.
  intros Hb. induction l as [|x l IH]; [apply preserves_ret|].
  cbn [for_each]. apply preserves_bind; [apply Hb|by intros _].
Qed.

Lemma preserves_run evs :
  (∀ ev, ev ∈ evs → preserves P (handler ev)) → ∀ s, P s → P (run evs s).
Proof.
  induction evs as [|ev evs IH]; intros Hevs s Hs; [done|].
  cbn. apply IH.
  - intros ev' Hev'. apply Hevs. by right.
  - apply Hevs; [by left|done].
Qed.

End Preservation.

(** Goes through a handler made of updates that keep the property at
    hand. *)
Ltac preserve :=
  repeat match goal with
    | |- preserves _ (@mret _ _ _ _) => apply preserves_ret
    | |- preserves _ (throw _) => apply preserves_throw
    | |- preserves _ (lift _) => apply preserves_lift
    | |- preserves _ (read _) => apply preserves_read
    | |- preserves _ (try_catch _) => apply preserves_try_catch
    | |- preserves _ (for_each _ _) => apply preserves_for_each; intros ?
    | |- preserves _ (update _) => apply preserves_update; intros ? ?; assumption
    | |- preserves _ (@mbind _ _ _ _ _ _) => apply preserves_bind; [|intros ?]
    | |- preserves _ (if ?b then _ else _) => destruct b
    | |- preserves _ (match ?x with _ => _ end) => destruct x
    | |- preserves _ _ => assumption
    end.

(** ** The playback cursor *)

Section Cursor.

Lemma duration_nonneg bytes rate channels b :
  decodeAudioData bytes rate channels = Ok b → 0 < rate → (0 <= duration b)%Q.
Proof.
  unfold decodeAudioData. intros Hb Hrate.
  destruct (Int16Array_of_Uint8Array bytes) as [dataInt16|]; [|done].
  destruct (_ || _); [done|]. injection Hb as <-.
  unfold duration; cbn [frames sampleRate].
  apply Qle_shift_div_l.
  - unfold Qlt; cbn. lia.
  - rewrite Qmult_0_l. unfold Qle; cbn. lia.
Qed.

Lemma schedule_audio_cursor c0 now audioOut :
  preserves (λ s, (c0 <= nextStartTimeRef s)%Q) (schedule_audio now audioOut).
Proof.
  intros s Hs. rewrite schedule_audio_eq. unfold schedule_audio_outcome.
  assert (Hmax : (c0 <= Qmax (nextStartTimeRef s) now)%Q).
  { eapply Qle_trans; [exact Hs|apply Q.le_max_l]. }
  destruct (audioOut ≫= decode) as [bytes|]; [|done].
  destruct (decodeAudioData bytes 24000 1) as [b|e] eqn:Hb; [|done].
  destruct (Qle_bool 0 _); [|done].
  cbn. apply duration_nonneg in Hb; [|done].
  rewrite <- (Qplus_0_r c0). by apply Qplus_le_compat.
Qed.

Lemma session_handler_cursor c0 ev :
  session_event ev = true →
  preserves (λ s, (c0 <= nextStartTimeRef s)%Q) (handler ev).
Proof.
  destruct ev as [| g | now msg | frame | blob | inputData | h | g script | |];
    intros Hev; try done; cbn [handler].
  - unfold onopen. preserve.
  - unfold onmessage, show_transcript. preserve. apply schedule_audio_cursor.
  - unfold interval_tick. preserve.
  - unfold frame_loadend, call. preserve.
  - unfold onaudioprocess, call. preserve.
  - unfold onended. preserve.
  - clear Hev.
    induction script as [|attempt rest IH]; cbn [captureFullAnalysis]; unfold call;
      preserve.
  - apply preserves_update. intros s Hs. unfold render. by destruct (active s).
Qed.

(** C2: while a session runs, that is over any sequence of events with no
    start and no stop among them, the playback cursor does not decrease. *)
Theorem cursor_monotone (s : Scanner) (evs : list Event) :
  forallb session_event evs = true →
  (nextStartTimeRef s <= nextStartTimeRef (run evs s))%Q.
Proof.
  intros Hevs.
  apply (preserves_run (λ s', (nextStartTimeRef s <= nextStartTimeRef s')%Q));
    [|apply Qle_refl].
  intros ev Hev. apply session_handler_cursor.
  rewrite forallb_forall in Hevs. by apply Hevs, list_elem_of_In.
Qed.

Lemma cursor_monotone_witness :
  forallb session_event
    [EvMessage 5%Q (audio_message "AQIDBA=="); EvTick 1;
     EvMessage 5%Q (transcript_message "mould"); EvEnded 0] = true
  ∧ (nextStartTimeRef live_session
     <= nextStartTimeRef
          (run [EvMessage 5%Q (audio_message "AQIDBA=="); EvTick 1;
                EvMessage 5%Q (transcript_message "mould"); EvEnded 0]
               live_session))%Q.
Proof.
  split; [reflexivity|]. apply (cursor_monotone live_session). reflexivity.
Defined.

End Cursor.

(** ** The in-flight set *)

Section InFlight.

Lemma halt_not_scheduled n : is_scheduled (halt n) = false.
Proof. by destruct n as [b []]. Qed.

Lemma halt_scheduled n : is_scheduled n = true → node_state (halt n) = Stopped.
Proof. by destruct n as [b []]. Qed.

Lemma halt_halt n : halt (halt n) = halt n.
Proof. by destruct n as [b []]. Qed.

Lemma lookup_stop_node ns h h' :
  stop_node ns h !! h' = if decide (h = h') then halt <$> ns !! h' else ns !! h'.
Proof.
  unfold stop_node. destruct (decide (h = h')) as [<-|Hne].
  - destruct (ns !! h) as [[b st]|] eqn:E; cbn; [|done].
    destruct st; cbn; rewrite ?list_lookup_alter_eq, E; done.
  - destruct (node_state <$> ns !! h) as [[]|]; try done.
    by rewrite list_lookup_alter_ne.
Qed.

Lemma lookup_stop_all l ns h :
  fold_left stop_node l ns !! h
  = if bool_decide (h ∈ l) then halt <$> ns !! h else ns !! h.
Proof.
  revert ns. induction l as [|x l IH]; intros ns; [done|].
  cbn [fold_left]. rewrite IH, lookup_stop_node.
  destruct (decide (x = h)) as [->|Hne].
  - rewrite (bool_decide_eq_true_2 (h ∈ h :: l)) by left.
    case_bool_decide; [|done].
    destruct (ns !! h) as [n|]; [|done]. cbn. by rewrite halt_halt.
  - case_bool_decide as Hl.
    + by rewrite bool_decide_eq_true_2 by by right.
    + rewrite bool_decide_eq_false_2; [done|].
      intros Hin. apply elem_of_cons in Hin as [->|Hin]; done.
Qed.

Lemma elem_of_set_add h h0 l : h ∈ set_add h0 l ↔ h = h0 ∨ h ∈ l.
Proof.
  unfold set_add. case_bool_decide as Hin.
  - split; [by right|]. by intros [->|].
  - rewrite elem_of_app, list_elem_of_singleton. tauto.
Qed.

Lemma elem_of_set_delete h h0 l : h ∈ set_delete h0 l ↔ h ≠ h0 ∧ h ∈ l.
Proof.
  unfold set_delete. rewrite !list_elem_of_In, filter_In.
  rewrite negb_true_iff, Nat.eqb_neq. tauto.
Qed.

Lemma in_flight_bound s h :
  in_flight_exact s → h ∈ sourcesRef s → (h < length (nodes s))%nat.
Proof.
  intros Hs Hh. apply Hs in Hh as (n & t & Hn & _). by apply lookup_lt_Some in Hn.
Qed.

Lemma in_flight_stopped s : in_flight_exact s → in_flight_exact (stopped s).
Proof.
  intros Hs h. cbn [stopped sourcesRef nodes]. split; [by intros ?%elem_of_nil|].
  intros (n & t & Hn & Ht). rewrite lookup_stop_all in Hn.
  case_bool_decide as Hin.
  - destruct (nodes s !! h) as [n0|]; [|done]. injection Hn as <-.
    pose proof (halt_not_scheduled n0) as Hf. unfold is_scheduled in Hf.
    by rewrite Ht in Hf.
  - destruct Hin. apply Hs. eauto.
Qed.

Lemma in_flight_schedule_audio now audioOut :
  preserves in_flight_exact (schedule_audio now audioOut).
Proof.
  intros s Hs. rewrite schedule_audio_eq. unfold schedule_audio_outcome.
  destruct (audioOut ≫= decode) as [bytes|]; [|done].
  destruct (decodeAudioData bytes 24000 1) as [b|e]; [|done].
  destruct (Qle_bool 0 _); intros h; cbn.
  - rewrite elem_of_set_add. split.
    + intros [->|Hh].
      * eexists _, _. by rewrite lookup_fresh.
      * apply Hs in Hh as (n & t & Hn & Ht). exists n, t.
        split; [by apply lookup_app_l_Some|done].
    + intros (n & t & Hn & Ht). apply lookup_app_Some in Hn as [Hn|[Hlen Hn]].
      * right. apply Hs. eauto.
      * left. apply list_lookup_singleton_Some in Hn as [Hz _]. lia.
  - split.
    + intros Hh. apply Hs in Hh as (n & t & Hn & Ht). exists n, t.
      split; [by apply lookup_app_l_Some|done].
    + intros (n & t & Hn & Ht). apply lookup_app_Some in Hn as [Hn|[Hlen Hn]].
      * apply Hs. eauto.
      * apply list_lookup_singleton_Some in Hn as [_ <-]. done.
Qed.

Lemma in_flight_onended h : preserves in_flight_exact (onended h).
Proof.
  intros s Hs. unfold onended. rewrite bind_read.
  destruct (nodes s !! h) as [[b st]|] eqn:Hh; [|done].
  destruct st; cbn [fmap option_fmap option_map node_state]; try done.
  - rewrite !bind_update. intros h'. cbn. fold (set_delete h (sourcesRef s)).
    rewrite elem_of_set_delete, list_lookup_alter. split.
    + intros [Hne Hin]. apply Hs in Hin. by rewrite decide_False.
    + intros (n & t & Hn & Ht). destruct (decide (h = h')) as [<-|Hne].
      * rewrite Hh in Hn. injection Hn as <-. done.
      * split; [done|]. apply Hs. eauto.
  - intros h'. cbn. fold (set_delete h (sourcesRef s)).
    rewrite elem_of_set_delete. split.
    + intros [_ Hin]. by apply Hs.
    + intros (n & t & Hn & Ht). split; [|apply Hs; eauto].
      intros ->. rewrite Hh in Hn. injection Hn as <-. done.
Qed.

Lemma preserves_stopScanner (P : Scanner → Prop) :
  (∀ s, P s → P (stopped s)) → preserves P stopScanner.
Proof. intros HP s Hs. rewrite stopScanner_eq. by apply HP. Qed.

Lemma in_flight_render s : in_flight_exact s → in_flight_exact (render s).
Proof. unfold render. by destruct (active s). Qed.

Lemma in_flight_startScanner enabled g script :
  preserves in_flight_exact (startScanner enabled g script).
Proof.
  induction script as [|attempt rest IH];
    cbn [startScanner]; unfold call, attach; destruct enabled; cbn [negb];
    cbv zeta; unfold call; preserve;
    first [ apply preserves_stopScanner, in_flight_stopped
          | apply preserves_update, in_flight_render ].
Qed.

Lemma in_flight_handler ev : preserves in_flight_exact (handler ev).
Proof.
  destruct ev as [enabled g script | g | now msg | frame | blob | inputData | h
                 | g script | |]; cbn [handler].
  - apply in_flight_startScanner.
  - unfold onopen. preserve.
  - unfold onmessage, show_transcript. preserve. apply in_flight_schedule_audio.
  - unfold interval_tick. preserve.
  - unfold frame_loadend, call. preserve.
  - unfold onaudioprocess, call. preserve.
  - apply in_flight_onended.
  - induction script as [|attempt rest IH]; cbn [captureFullAnalysis]; unfold call;
      preserve.
  - apply preserves_update, in_flight_render.
  - apply preserves_stopScanner, in_flight_stopped.
Qed.

Lemma in_flight_run g evs : in_flight_exact (run evs (mounted g)).
Proof.
  apply preserves_run.
  - intros ev _. apply in_flight_handler.
  - intros h. cbn. split; [by intros ?%elem_of_nil|].
    by intros (n & t & Hn & _).
Qed.

(** C3: take the view in any state it can reach from its mounting, and let
    [stopScanner] return. Then the in-flight set is empty and the cursor is
    zero; [stop()] was called on every handle that was in the set and has
    left its node stopped; and no node at all is left scheduled, so no
    playback starts after the stop. *)
Theorem stop_cancels_playback (isGamified : bool) (evs : list Event) :
  let s := run evs (mounted isGamified) in
  let s' := (stopScanner s).2 in
  sourcesRef s' = []
  ∧ nextStartTimeRef s' = 0%Q
  ∧ (∀ h, h ∈ sourcesRef s →
          StopSource h ∈ effects s'
          ∧ node_state <$> nodes s' !! h = Some Stopped)
  ∧ (∀ h n, nodes s' !! h = Some n → is_scheduled n = false).
Proof.
  cbn zeta. rewrite stopScanner_eq. cbn [snd].
  pose proof (in_flight_run isGamified evs) as Hs.
  set (s := run evs (mounted isGamified)) in *.
  split; [done|]. split; [done|]. split.
  - intros h Hh. split.
    + cbn [stopped effects]. unfold teardown_calls.
      rewrite !elem_of_app. right. right. right. left.
      rewrite list_elem_of_fmap. eauto.
    + cbn [stopped nodes]. rewrite lookup_stop_all, bool_decide_eq_true_2 by done.
      apply Hs in Hh as (n & t & -> & Ht). cbn. f_equal.
      apply halt_scheduled. unfold is_scheduled. by rewrite Ht.
  - intros h n Hn. destruct (is_scheduled n) eqn:Hsch; [|done].
    pose proof (in_flight_stopped s Hs h) as [_ Hh].
    exfalso. eapply elem_of_nil, Hh.
    exists n. unfold is_scheduled in Hsch.
    destruct (node_state n) as [|t| |]; try done. eauto.
Qed.

End InFlight.

(** ** Gapless scheduling *)

Section Schedule.

Lemma audio_chunk_inv msg b :
  audio_chunk msg = Some b →
  ∃ audioOut bytes,
    audioOut_of msg = Ok audioOut ∧ JS.truthy_string audioOut = true
    ∧ audioOut ≫= decode = Some bytes ∧ decodeAudioData bytes 24000 1 = Ok b.
Proof.
  unfold audio_chunk. intros Hb.
  destruct (audioOut_of msg) as [audioOut|]; [|done].
  destruct (JS.truthy_string audioOut) eqn:Ht; [|done].
  destruct (audioOut ≫= decode) as [bytes|] eqn:Hbytes; [|done]. cbn in Hb.
  destruct (decodeAudioData bytes 24000 1) as [b'|] eqn:Hd; [|done].
  injection Hb as <-. by exists audioOut, bytes.
Qed.

(** The transcript branch leaves the playback state alone. *)
Lemma transcript_keeps_playback msg ns c so ac :
  preserves (λ s, nodes s = ns ∧ nextStartTimeRef s = c ∧ sourcesRef s = so
                  ∧ audioCtxRef s = ac)
    (match serverContent msg ≫= outputTranscription with
     | Some transcription => show_transcript transcription
     | None => mret tt
     end).
Proof. unfold show_transcript. preserve. Qed.

Lemma onmessage_schedules s now msg b :
  audio_chunk msg = Some b →
  is_Some (audioCtxRef s) →
  (0 <= nextStartTimeRef s)%Q →
  let start := Qmax (nextStartTimeRef s) now in
  let s' := step s (EvMessage now msg) in
  nodes s' = nodes s ++ [{| buffer := Some b; node_state := Scheduled start |}]
  ∧ nextStartTimeRef s' = (start + duration b)%Q
  ∧ sourcesRef s' = set_add (length (nodes s)) (sourcesRef s)
  ∧ audioCtxRef s' = audioCtxRef s.
Proof.
  intros (audioOut & bytes & Ha & Ht & Hbytes & Hb)%audio_chunk_inv Hctx Hpos.
  cbn zeta. unfold step, handler.
  assert (Hs' : (onmessage now msg s).2
                = ((match serverContent msg ≫= outputTranscription with
                    | Some transcription => show_transcript transcription
                    | None => mret tt
                    end) (scheduled (Qmax (nextStartTimeRef s) now) b s)).2).
  { unfold onmessage.
    rewrite Ha, bind_lift_ok, bind_read, Ht, bool_decide_eq_true_2 by done.
    cbn [andb]. unfold mbind at 1, M_bind at 1.
    rewrite schedule_audio_eq. unfold schedule_audio_outcome.
    rewrite Hbytes, Hb.
    assert (Qle_bool 0 (Qmax (nextStartTimeRef s) now) = true) as ->; [|done].
    apply Qle_bool_iff. eapply Qle_trans; [exact Hpos|apply Q.le_max_l]. }
  rewrite Hs'.
  by apply (transcript_keeps_playback msg _ _ _ _
              (scheduled (Qmax (nextStartTimeRef s) now) b s)).
Qed.

Lemma carries_audio_chunk msg :
  carries_audio msg = true → ∃ b, audio_chunk msg = Some b.
Proof. unfold carries_audio. by intros ?%bool_decide_eq_true. Qed.

Lemma playing_step s now msg b :
  audio_chunk msg = Some b → playing s → playing (step s (EvMessage now msg)).
Proof.
  intros Hb [Hctx Hpos].
  destruct (onmessage_schedules s now msg b Hb Hctx Hpos) as (_ & Hc & _ & Ha).
  split; [by rewrite Ha|]. rewrite Hc.
  destruct (audio_chunk_inv _ _ Hb) as (_ & bytes & _ & _ & _ & Hd).
  apply duration_nonneg in Hd; [|done].
  rewrite <- (Qplus_0_r 0). apply Qplus_le_compat; [|done].
  eapply Qle_trans; [exact Hpos|apply Q.le_max_l].
Qed.

Lemma run_messages_nodes msgs s :
  playing s → forallb (λ p, carries_audio p.2) msgs = true →
  playing (run (messages msgs) s)
  ∧ ∃ extra, nodes (run (messages msgs) s) = nodes s ++ extra.
Proof.
  revert s. induction msgs as [|[now msg] rest IH]; intros s Hs Hall.
  - split; [done|]. exists []. by rewrite app_nil_r.
  - cbn in Hall. apply andb_prop in Hall as [[b Hb]%carries_audio_chunk Hall].
    destruct (IH (step s (EvMessage now msg))) as (Hp & extra & Hex);
      [by eapply playing_step|done|].
    split; [exact Hp|].
    destruct Hs as [Hctx Hpos].
    destruct (onmessage_schedules s now msg b Hb Hctx Hpos) as (Hn & _).
    cbn zeta in Hn.
    exists ({| buffer := Some b;
               node_state := Scheduled (Qmax (nextStartTimeRef s) now) |} :: extra).
    change (run (messages ((now, msg) :: rest)) s)
      with (run (messages rest) (step s (EvMessage now msg))).
    by rewrite Hex, Hn, <- app_assoc.
Qed.

Lemma scheduled_at msgs s i now msg :
  playing s → forallb (λ p, carries_audio p.2) msgs = true →
  msgs !! i = Some (now, msg) →
  ∃ b, audio_chunk msg = Some b
       ∧ nodes (run (messages msgs) s) !! (length (nodes s) + i)%nat
         = Some {| buffer := Some b;
                   node_state :=
                     Scheduled (Qmax (nextStartTimeRef (run (messages (take i msgs)) s)) now) |}.
Proof.
  revert s i. induction msgs as [|[now0 msg0] rest IH]; intros s i Hs Hall Hi; [done|].
  cbn in Hall. apply andb_prop in Hall as [[b Hb]%carries_audio_chunk Hall].
  pose proof (playing_step s now0 msg0 b Hb Hs) as Hs1.
  destruct Hs as [Hctx Hpos].
  destruct (onmessage_schedules s now0 msg0 b Hb Hctx Hpos) as (Hn & _).
  cbn zeta in Hn.
  destruct i as [|i].
  - injection Hi as -> ->. exists b. split; [done|].
    destruct (run_messages_nodes rest _ Hs1 Hall) as (_ & extra & Hex).
    change (run (messages ((now, msg) :: rest)) s)
      with (run (messages rest) (step s (EvMessage now msg))).
    rewrite Hex, Hn, <- app_assoc, Nat.add_0_r.
    by apply list_lookup_middle.
  - cbn in Hi. destruct (IH _ i Hs1 Hall Hi) as (b' & Hb' & Hl).
    exists b'. split; [done|].
    change (run (messages ((now0, msg0) :: rest)) s)
      with (run (messages rest) (step s (EvMessage now0 msg0))).
    change (run (messages (take (S i) ((now0, msg0) :: rest))) s)
      with (run (messages (take i rest)) (step s (EvMessage now0 msg0))).
    rewrite Hn, length_app in Hl. cbn [length] in Hl.
    by replace (length (nodes s) + S i)%nat with (length (nodes s) + 1 + i)%nat by lia.
Qed.

Lemma behind_cursor msgs s :
  playing s → forallb (λ p, carries_audio p.2) msgs = true →
  clock_behind s msgs = true →
  (nextStartTimeRef (run (messages msgs) s)
   == nextStartTimeRef s + sum_durations (chunks msgs))%Q.
Proof.
  revert s. induction msgs as [|[now msg] rest IH]; intros s Hs Hall Hbehind.
  - cbn. by rewrite Qplus_0_r.
  - cbn in Hall. apply andb_prop in Hall as [[b Hb]%carries_audio_chunk Hall].
    cbn [clock_behind] in Hbehind.
    apply andb_prop in Hbehind as [Hnow%Qle_bool_iff Hbehind].
    pose proof (playing_step s now msg b Hb Hs) as Hs1.
    destruct Hs as [Hctx Hpos].
    destruct (onmessage_schedules s now msg b Hb Hctx Hpos) as (_ & Hc & _).
    cbn zeta in Hc.
    change (run (messages ((now, msg) :: rest)) s)
      with (run (messages rest) (step s (EvMessage now msg))).
    rewrite (IH _ Hs1 Hall Hbehind), Hc.
    unfold chunks. cbn [omap list_omap snd]. rewrite Hb. cbn [sum_durations fold_right].
    rewrite (Q.max_l _ _ Hnow). apply Qeq_sym, Qplus_assoc.
Qed.

Lemma clock_behind_take msgs s i now msg :
  clock_behind s (take (S i) msgs) = true →
  msgs !! i = Some (now, msg) →
  clock_behind s (take i msgs) = true
  ∧ (now <= nextStartTimeRef (run (messages (take i msgs)) s))%Q.
Proof.
  revert s i. induction msgs as [|[now0 msg0] rest IH]; intros s i Hbehind Hi; [done|].
  destruct i as [|i].
  - injection Hi as -> ->. cbn in Hbehind.
    apply andb_prop in Hbehind as [Hnow%Qle_bool_iff _]. done.
  - cbn [take clock_behind] in Hbehind |- *.
    apply andb_prop in Hbehind as [Hnow Hbehind].
    destruct (IH _ i Hbehind Hi) as [Hb Hle]. by rewrite Hnow, Hb.
Qed.

Lemma Qmax_clock_ahead c now : (c < now)%Q → Qmax c now = now.
Proof.
  intros Hlt. unfold Qmax, GenericMinMax.gmax.
  by rewrite (proj1 (Qlt_alt c now) Hlt).
Qed.

(** C1: on a view whose output context is there, take any sequence of
    messages that each carry an audio payload that decodes. The buffer of the
    i-th one is started at max(cursor, clock) for the cursor and the clock at
    its arrival. If the clock is ahead of the cursor then, that start is the
    clock reading; and if the clock was behind the cursor at every arrival so
    far, it is the initial cursor plus the durations of the chunks before
    it. *)
Theorem gapless_schedule (s : Scanner) (msgs : list (Q * LiveServerMessage))
    (i : nat) (now : Q) (msg : LiveServerMessage) :
  is_Some (audioCtxRef s) →
  (0 <= nextStartTimeRef s)%Q →
  forallb (λ p, carries_audio p.2) msgs = true →
  msgs !! i = Some (now, msg) →
  let before := run (messages (take i msgs)) s in
  let start := Qmax (nextStartTimeRef before) now in
  ∃ b, audio_chunk msg = Some b
    ∧ nodes (run (messages msgs) s) !! (length (nodes s) + i)%nat
      = Some {| buffer := Some b; node_state := Scheduled start |}
    ∧ nextStartTimeRef (run (messages (take (S i) msgs)) s) = (start + duration b)%Q
    ∧ ((nextStartTimeRef before < now)%Q → start = now)
    ∧ (clock_behind s (take (S i) msgs) = true →
       (start == nextStartTimeRef s + sum_durations (chunks (take i msgs)))%Q).
Proof.
  intros Hctx Hpos Hall Hi. cbn zeta.
  assert (Hs : playing s) by done.
  destruct (scheduled_at msgs s i now msg Hs Hall Hi) as (b & Hb & Hnode).
  exists b. split; [done|]. split; [done|].
  assert (Htake : forallb (λ p, carries_audio p.2) (take i msgs) = true).
  { apply forallb_forall. intros p Hp. rewrite forallb_forall in Hall.
    apply Hall. apply list_elem_of_In. apply list_elem_of_In in Hp.
    apply elem_of_take in Hp as (k & Hk & _). by eapply list_elem_of_lookup_2. }
  destruct (run_messages_nodes (take i msgs) s Hs Htake) as ([Hctx' Hpos'] & _).
  split.
  - rewrite (take_S_r _ _ _ Hi).
    destruct (onmessage_schedules _ now msg b Hb Hctx' Hpos') as (_ & Hc & _).
    cbn zeta in Hc. rewrite <- Hc. unfold messages, run.
    by rewrite map_app, fold_left_app.
  - split; [apply Qmax_clock_ahead|].
    intros Hbehind.
    destruct (clock_behind_take msgs s i now msg Hbehind Hi) as [Hb' Hle].
    rewrite (Q.max_l _ _ Hle). by apply behind_cursor.
Qed.

Lemma gapless_schedule_witness :
  is_Some (audioCtxRef open_session)
  ∧ (0 <= nextStartTimeRef open_session)%Q
  ∧ forallb (λ p, carries_audio p.2) three_chunks = true
  ∧ three_chunks !! 1%nat = Some (0%Q, audio_message "AQIDBAUG")
  ∧ ∃ b, audio_chunk (audio_message "AQIDBAUG") = Some b
    ∧ nodes (run (messages three_chunks) open_session)
        !! (length (nodes open_session) + 1)%nat
      = Some {| buffer := Some b;
                node_state :=
                  Scheduled
                    (Qmax (nextStartTimeRef
                             (run (messages (take 1 three_chunks)) open_session))
                          0) |}
    ∧ nextStartTimeRef (run (messages (take 2 three_chunks)) open_session)
      = (Qmax (nextStartTimeRef
                 (run (messages (take 1 three_chunks)) open_session)) 0
         + duration b)%Q
    ∧ ((nextStartTimeRef (run (messages (take 1 three_chunks)) open_session) < 0)%Q →
       Qmax (nextStartTimeRef
               (run (messages (take 1 three_chunks)) open_session)) 0 = 0%Q)
    ∧ (clock_behind open_session (take 2 three_chunks) = true →
       (Qmax (nextStartTimeRef
                (run (messages (take 1 three_chunks)) open_session)) 0
        == nextStartTimeRef open_session
           + sum_durations (chunks (take 1 three_chunks)))%Q).
Proof.
  assert (H1 : is_Some (audioCtxRef open_session)) by (vm_compute; eauto).
  assert (H2 : (0 <= nextStartTimeRef open_session)%Q) by (vm_compute; discriminate).
  assert (H3 : forallb (λ p, carries_audio p.2) three_chunks = true)
    by (vm_compute; reflexivity).
  assert (H4 : three_chunks !! 1%nat = Some (0%Q, audio_message "AQIDBAUG"))
    by reflexivity.
  split; [exact H1|]. split; [exact H2|]. split; [exact H3|]. split; [exact H4|].
  exact (gapless_schedule open_session three_chunks 1 0%Q
           (audio_message "AQIDBAUG") H1 H2 H3 H4).
Defined.

End Schedule.

(** ** The mould alert *)

Section Alert.

Lemma startsWith_spec s k :
  JS.startsWith s k = true ↔ ∃ post : string, s = (k ++ post)%string.
Proof.
  revert s. induction k as [|a k IH]; intros s; cbn.
  - split; [|done]. intros _. by exists s.
  - destruct s as [|b s]; cbn.
    + split; [done|]. by intros [post ?].
    + rewrite andb_true_iff, Ascii.eqb_eq, IH. split.
      * intros [-> [post ->]]. by exists post.
      * intros [post [= -> ->]]. eauto.
Qed.

Lemma includes_spec s k : JS.includes s k = true ↔ contains s k.
Proof.
  unfold contains. induction s as [|c s IH]; cbn.
  - destruct (JS.startsWith "" k) eqn:Hk.
    + split; [|done]. intros _. apply startsWith_spec in Hk as [post Hk].
      by exists ""%string, post.
    + split; [done|]. intros (pre & post & Hs).
      destruct pre; [|done]. cbn in Hs.
      assert (JS.startsWith "" k = true) by (apply startsWith_spec; eauto).
      congruence.
  - destruct (JS.startsWith (String c s) k) eqn:Hk.
    + split; [|done]. intros _. apply startsWith_spec in Hk as [post Hk].
      by exists ""%string, post.
    + rewrite IH. split.
      * intros (pre & post & ->). by exists (String c pre), post.
      * intros (pre & post & Hs). destruct pre as [|c' pre].
        -- cbn in Hs.
           assert (JS.startsWith (String c s) k = true)
             by (apply startsWith_spec; eauto).
           congruence.
        -- injection Hs as -> ->. eauto.
Qed.

Lemma mould_condition_spec text :
  mould_condition text = true ↔ ∃ k, k ∈ hazard_keywords ∧ contains text k.
Proof.
  unfold mould_condition, hazard_keywords.
  rewrite !orb_true_iff, !includes_spec. split.
  - intros [[[H|H]|H]|H]; eexists; (split; [|exact H]);
      repeat first [by left | right].
  - intros (k & Hk & H).
    repeat (apply elem_of_cons in Hk as [->|Hk]; [tauto|]).
    by apply elem_of_nil in Hk.
Qed.

Lemma show_transcript_alert t tr s :
  text tr = Some t →
  show_transcript tr s
  = (Ok tt, set_mouldAlert (classify t) (set_analysisText (JS.toLowerCase t) s)).
Proof.
  intros Ht. unfold show_transcript, classify. rewrite Ht. cbn zeta.
  rewrite bind_update. by destruct (mould_condition _).
Qed.

(** C6: when a message with a transcript text has been handled, the mould
    alert is the classification of that text alone: it is on exactly when
    the lower-cased text contains one of the four keywords, whatever the
    alert was before. So a text with "mould" sets it and a following text
    without any keyword clears it. *)
Theorem hazard_alert (s : Scanner) (now : Q) (msg : LiveServerMessage) (t : string) :
  (serverContent msg ≫= outputTranscription) ≫= text = Some t →
  (onmessage now msg s).1 = Ok tt →
  let s' := step s (EvMessage now msg) in
  let s1 := step s (EvMessage now (transcript_message "I see some mould here")) in
  let s2 := step s1 (EvMessage now (transcript_message "looks fresh now")) in
  mouldAlert s' = classify t
  ∧ (classify t = true ↔
     ∃ k, k ∈ hazard_keywords ∧ contains (JS.toLowerCase t) k)
  ∧ mouldAlert s1 = true
  ∧ mouldAlert s2 = false.
Proof.
  intros Ht Hok. cbn zeta.
  split; [|split; [apply mould_condition_spec|done]].
  unfold step, handler. revert Hok. unfold onmessage.
  destruct (serverContent msg ≫= outputTranscription) as [tr|]; [|done].
  cbn in Ht.
  destruct (audioOut_of msg) as [audioOut|e]; [|done].
  rewrite bind_lift_ok, bind_read. unfold mbind, M_bind.
  match goal with
  | |- context [(if ?c then ?a else ?b) s] =>
      destruct ((if c then a else b) s) as [[[]|e] s0]; [|done]
  end.
  by rewrite (show_transcript_alert t tr s0 Ht).
Qed.

Lemma hazard_alert_witness :
  (serverContent (transcript_message "Fuzzy spots") ≫= outputTranscription) ≫= text
  = Some "Fuzzy spots"%string
  ∧ (onmessage 0%Q (transcript_message "Fuzzy spots") live_session).1 = Ok tt
  ∧ mouldAlert (step live_session (EvMessage 0%Q (transcript_message "Fuzzy spots")))
    = classify "Fuzzy spots"
  ∧ (classify "Fuzzy spots" = true ↔
     ∃ k, k ∈ hazard_keywords ∧ contains (JS.toLowerCase "Fuzzy spots") k)
  ∧ mouldAlert (step live_session
                  (EvMessage 0%Q (transcript_message "I see some mould here")))
    = true
  ∧ mouldAlert
      (step (step live_session
               (EvMessage 0%Q (transcript_message "I see some mould here")))
            (EvMessage 0%Q (transcript_message "looks fresh now")))
    = false.
Proof.
  split; [reflexivity|]. split; [reflexivity|].
  apply (hazard_alert live_session 0%Q (transcript_message "Fuzzy spots")
           "Fuzzy spots"); reflexivity.
Defined.

End Alert.

(** ** Capture: samples and frames *)

Section Capture.

(** C7, at the failing input: a sample of exactly 1.0 is stored as -32768 and
    comes back as -1.0, two units away from what went in. *)
Theorem full_scale_sample_flips :
  int16_of_samples [1%Q] = [-32768]
  ∧ capture_then_playback [1%Q] = Some [(-32768 # 32768)%Q]
  ∧ (-32768 # 32768 == -1)%Q
  ∧ ¬ (Qabs ((-32768 # 32768) - 1) <= 1 # 32768)%Q.
Proof.
  split; [by vm_compute|]. split; [by vm_compute|]. split; [done|].
  vm_compute. intros H. by apply H.
Qed.






End Capture.

(** ** Credential prompt and retry *)

Section Retry.


Lemma bind_ret {A B} (a : A) (k : A → M B) s : (mret a ≫= k) s = k a s.
Proof. done. Qed.






















End Retry.

(** ** PCM: what the conversion keeps *)

Section Pcm.

Lemma truncate_spec x :
  (inject_Z (truncate x) - 1 < x)%Q ∧ (x < inject_Z (truncate x) + 1)%Q
  ∧ ((0 <= x)%Q → (inject_Z (truncate x) <= x)%Q)
  ∧ ((x <= 0)%Q → (x <= inject_Z (truncate x))%Q).
Proof.
  destruct x as [n d]. unfold truncate, Qlt, Qle, Qminus, Qplus, Qopp, inject_Z.
  cbn [Qnum Qden]. pose proof (Pos2Z.is_pos d).
  Z.quot_rem_to_equations. nia.
Qed.

Lemma ToInt16_small t : is_int16 t → (let m := t mod 65536 in
                                      if 32768 <=? m then m - 65536 else m) = t.
Proof.
  unfold is_int16. intros Ht. cbn zeta.
  destruct (32768 <=? t mod 65536) eqn:Hm;
    [apply Z.leb_le in Hm|apply Z.leb_gt in Hm];
    Z.to_euclidean_division_equations; lia.
Qed.

Lemma truncate_scaled x :
  in_range x → is_int16 (truncate (x * 32768)).
Proof.
  intros [Hlo Hhi]. unfold is_int16.
  destruct (truncate_spec (x * 32768)) as (Ha & Hb & Hpos & Hneg).
  set (t := truncate (x * 32768)) in *.
  destruct (Qlt_le_dec (x * 32768) 0) as [Hn|Hp].
  - specialize (Hneg (Qlt_le_weak _ _ Hn)).
    assert (H1 : (-32768 <= inject_Z t)%Q) by lra.
    assert (H2 : (inject_Z t < 1)%Q) by lra.
    change (-32768)%Q with (inject_Z (-32768)) in H1.
    change 1%Q with (inject_Z 1) in H2.
    rewrite <- Zle_Qle in H1. rewrite <- Zlt_Qlt in H2. lia.
  - specialize (Hpos Hp).
    assert (H1 : (-1 < inject_Z t)%Q) by lra.
    assert (H2 : (inject_Z t < 32768)%Q) by lra.
    change (-1)%Q with (inject_Z (-1)) in H1.
    change 32768%Q with (inject_Z 32768) in H2.
    rewrite <- Zlt_Qlt in H1, H2. lia.
Qed.

Lemma ToInt16_scaled x :
  in_range x →
  ToInt16 (x * 32768) = truncate (x * 32768)
  ∧ within_step x (inject_Z (ToInt16 (x * 32768)) / 32768).
Proof.
  intros Hx. pose proof (truncate_scaled x Hx) as Ht.
  assert (Heq : ToInt16 (x * 32768) = truncate (x * 32768)).
  { unfold ToInt16. by apply ToInt16_small. }
  split; [done|]. rewrite Heq. unfold within_step.
  destruct (truncate_spec (x * 32768)) as (Ha & Hb & _).
  set (t := truncate (x * 32768)) in *.
  apply Qabs_Qlt_condition. unfold Qdiv.
  change (/ 32768)%Q with (1 # 32768)%Q. split; lra.
Qed.

Lemma int16_bytes v :
  is_int16 v →
  Forall is_byte (bytes_of_int16 v)
  ∧ ∃ lo hi, bytes_of_int16 v = [lo; hi] ∧ int16_of_bytes lo hi = v.
Proof.
  unfold is_int16, bytes_of_int16, is_byte. intros Hv. cbn zeta. split.
  - repeat constructor; Z.to_euclidean_division_equations; lia.
  - eexists _, _. split; [done|]. unfold int16_of_bytes. cbn zeta.
    destruct (32768 <=? _) eqn:Hm;
      [apply Z.leb_le in Hm|apply Z.leb_gt in Hm];
      Z.to_euclidean_division_equations; lia.
Qed.

Lemma int16_view_round_trip l :
  Forall is_int16 l →
  Forall is_byte (Uint8Array_of_Int16Array l)
  ∧ Int16Array_of_Uint8Array (Uint8Array_of_Int16Array l) = Some l.
Proof.
  unfold Uint8Array_of_Int16Array.
  induction 1 as [|v l Hv _ [IHb IHv]]; [done|].
  destruct (int16_bytes v Hv) as (Hb & lo & hi & Hbytes & Hback).
  cbn [flat_map]. split; [by apply Forall_app|].
  rewrite Hbytes. cbn [app Int16Array_of_Uint8Array]. rewrite IHv. cbn.
  by rewrite Hback.
Qed.

Lemma map_nth_seq {A B} (f : A → B) (l : list A) d :
  map (λ i, f (nth (i * 1 + 0) l d)) (seq 0 (length l)) = map f l.
Proof.
  induction l as [|x l IH] using rev_ind; [done|].
  rewrite length_app, Nat.add_comm. cbn [length Nat.add].
  rewrite seq_S, !map_app. cbn [map Nat.add]. f_equal.
  - rewrite <- IH. apply map_ext_in. intros i Hi%in_seq.
    f_equal. apply app_nth1. lia.
  - do 2 f_equal. rewrite Nat.mul_1_r, Nat.add_0_r, app_nth2 by lia.
    by rewrite Nat.sub_diag.
Qed.

Lemma decodeAudioData_mono data dataInt16 rate :
  Int16Array_of_Uint8Array data = Some dataInt16 → dataInt16 ≠ [] →
  decodeAudioData data rate 1
  = Ok {| numberOfChannels := 1;
          frames := length dataInt16;
          sampleRate := rate;
          channelData := [map (λ v, (inject_Z v / 32768)%Q) dataInt16] |}.
Proof.
  intros Hd Hne. unfold decodeAudioData. rewrite Hd, Nat.div_1_r.
  assert ((length dataInt16 =? 0)%nat = false) as -> by by destruct dataInt16.
  cbn [Nat.eqb orb seq map]. unfold channel_samples.
  by rewrite (map_nth_seq (λ v, (inject_Z v / 32768)%Q) dataInt16 0).
Qed.

Lemma decode_after_encode bytes :
  Forall is_byte bytes → decode (encode bytes) = Some bytes.
Proof.
  intros Hb. unfold decode, encode, Base64.atob, Base64.btoa.
  rewrite list_ascii_of_string_of_list_ascii, char_codes_of_binary by done.
  rewrite forgiving_base64_decode_encode by done.
  cbn. by rewrite bytes_of_binary_chars.
Qed.

(** X1: every sample of [-1, 1) survives capture and playback to within
    less than one quantization step: a block of such samples, encoded by
    [onaudioprocess] and decoded by [decode] and [decodeAudioData], comes
    back sample by sample within 1/32768. *)
Theorem pcm_round_trip (inputData : list Q) :
  inputData ≠ [] →
  Forall in_range inputData →
  ∃ out, capture_then_playback inputData = Some out
         ∧ Forall2 within_step inputData out.
Proof.
  intros Hne Hrange.
  assert (Hint : Forall is_int16 (int16_of_samples inputData)).
  { unfold int16_of_samples. apply Forall_map.
    eapply Forall_impl; [exact Hrange|]. intros x Hx. cbn.
    destruct (ToInt16_scaled x Hx) as [-> _]. by apply truncate_scaled. }
  destruct (int16_view_round_trip _ Hint) as [Hbytes Hview].
  exists (map (λ v, (inject_Z v / 32768)%Q) (int16_of_samples inputData)).
  split.
  - unfold capture_then_playback, capture_payload.
    rewrite decode_after_encode by done. cbn [mbind option_bind].
    rewrite (decodeAudioData_mono _ _ _ Hview); [done|].
    unfold int16_of_samples. by destruct inputData.
  - unfold int16_of_samples. rewrite map_map.
    apply Forall2_fmap_r, Forall_Forall2_diag.
    eapply Forall_impl; [exact Hrange|]. intros x Hx. cbn.
    by destruct (ToInt16_scaled x Hx) as [_ ?].
Qed.

Lemma pcm_round_trip_witness :
  [(1 # 2)%Q; (-1)%Q; (-1 # 3)%Q; (32767 # 32768)%Q] ≠ []
  ∧ Forall in_range [(1 # 2)%Q; (-1)%Q; (-1 # 3)%Q; (32767 # 32768)%Q]
  ∧ ∃ out,
      capture_then_playback [(1 # 2)%Q; (-1)%Q; (-1 # 3)%Q; (32767 # 32768)%Q]
      = Some out
      ∧ Forall2 within_step
          [(1 # 2)%Q; (-1)%Q; (-1 # 3)%Q; (32767 # 32768)%Q] out.
Proof.
  assert (H1 : [(1 # 2)%Q; (-1)%Q; (-1 # 3)%Q; (32767 # 32768)%Q] ≠ []) by done.
  assert (H2 : Forall in_range
                 [(1 # 2)%Q; (-1)%Q; (-1 # 3)%Q; (32767 # 32768)%Q]).
  { repeat constructor; vm_compute; congruence. }
  split; [exact H1|]. split; [exact H2|]. exact (pcm_round_trip _ H1 H2).
Defined.

Lemma list_ind2 {A} (P : list A → Prop) :
  P [] → (∀ a, P [a]) → (∀ a b l, P l → P (a :: b :: l)) → ∀ l, P l.
Proof.
  intros H0 H1 H2.
  assert (H : ∀ l, P l ∧ ∀ a, P (a :: l)).
  { induction l as [|x l [IH0 IH1]]; [by auto|].
    split; [apply IH1|]. intros a. by apply H2. }
  intros l. apply H.
Qed.

Lemma int16_of_bytes_range lo hi :
  is_byte lo → is_byte hi → is_int16 (int16_of_bytes lo hi).
Proof.
  unfold is_byte, is_int16, int16_of_bytes. intros Hlo Hhi. cbn zeta.
  destruct (32768 <=? _) eqn:Hm;
    [apply Z.leb_le in Hm|apply Z.leb_gt in Hm]; lia.
Qed.

Lemma Int16Array_view data :
  Forall is_byte data →
  if Nat.odd (length data) then Int16Array_of_Uint8Array data = None
  else ∃ l, Int16Array_of_Uint8Array data = Some l
            ∧ (length l * 2 = length data)%nat ∧ Forall is_int16 l.
Proof.
  induction data as [|a|a b l IH] using list_ind2; intros Hb.
  - by exists [].
  - done.
  - inversion_clear Hb as [|?? Ha Hb']. inversion_clear Hb' as [|?? Hb Hl].
    specialize (IH Hl). cbn [length Nat.odd Nat.even] in IH |- *.
    change (Nat.odd (S (S (length l)))) with (Nat.odd (length l)).
    destruct (Nat.odd (length l)).
    + cbn. by rewrite IH.
    + destruct IH as (l' & Hl' & Hlen & Hint).
      exists (int16_of_bytes a b :: l'). cbn [Int16Array_of_Uint8Array].
      rewrite Hl'. split; [done|]. split; [cbn; lia|].
      constructor; [by apply int16_of_bytes_range|done].
Qed.

Lemma int16_normalized v : is_int16 v → in_range (inject_Z v / 32768).
Proof.
  unfold is_int16, in_range. intros [Hlo Hhi].
  rewrite Zle_Qle in Hlo. rewrite Zlt_Qlt in Hhi.
  change (inject_Z (-32768)) with (-32768)%Q in Hlo.
  change (inject_Z 32768) with 32768%Q in Hhi.
  unfold Qdiv. change (/ 32768)%Q with (1 # 32768)%Q. split; lra.
Qed.

(** X2: [decodeAudioData] as the program calls it, at 24000 Hz on one
    channel, for any bytes. An odd number of bytes raises [RangeError]; no
    bytes at all raise [NotSupportedError]; otherwise there is one channel
    with one sample per two bytes, every sample in [-1, 1), and the buffer
    lasts that many frames over 24000. *)
Theorem decodeAudioData_cases (data : list Z) :
  Forall is_byte data →
  if Nat.odd (length data) then decodeAudioData data 24000 1 = Throw RangeError
  else if (length data =? 0)%nat
       then decodeAudioData data 24000 1 = Throw NotSupportedError
       else ∃ b samples,
           decodeAudioData data 24000 1 = Ok b
           ∧ channelData b = [samples]
           ∧ (length samples * 2 = length data)%nat
           ∧ Forall in_range samples
           ∧ duration b = (inject_Z (Z.of_nat (length samples)) / 24000)%Q.
Proof.
  intros Hb. pose proof (Int16Array_view data Hb) as Hview.
  destruct (Nat.odd (length data)).
  - unfold decodeAudioData. by rewrite Hview.
  - destruct Hview as (l & Hl & Hlen & Hint).
    destruct (length data =? 0)%nat eqn:Hz.
    + apply Nat.eqb_eq in Hz. unfold decodeAudioData. rewrite Hl.
      assert (l = []) as -> by (destruct l; [done|cbn in Hlen; lia]).
      done.
    + apply Nat.eqb_neq in Hz.
      assert (Hne : l ≠ []) by (intros ->; cbn in Hlen; lia).
      eexists _, _. split; [by apply decodeAudioData_mono|].
      cbn [channelData]. split; [done|]. rewrite length_map.
      split; [done|]. split; [|done].
      apply Forall_map. eapply Forall_impl; [exact Hint|].
      intros v Hv. by apply int16_normalized.
Qed.

Lemma decodeAudioData_cases_witness :
  Forall is_byte [1; 2; 3; 4]
  ∧ ∃ b samples,
      decodeAudioData [1; 2; 3; 4] 24000 1 = Ok b
      ∧ channelData b = [samples]
      ∧ (length samples * 2 = length [1; 2; 3; 4])%nat
      ∧ Forall in_range samples
      ∧ duration b = (inject_Z (Z.of_nat (length samples)) / 24000)%Q.
Proof.
  assert (H : Forall is_byte [1; 2; 3; 4]).
  { repeat constructor; unfold is_byte; lia. }
  split; [exact H|]. exact (decodeAudioData_cases [1; 2; 3; 4] H).
Defined.

End Pcm.

(** ** Base64: what an encoding looks like *)

Section EncodeShape.

Import Base64.

Lemma length_string_of_list l :
  String.length (string_of_list_ascii l) = length l.
Proof. induction l as [|c l IH]; [done|]. cbn. by rewrite IH. Qed.

Lemma length_base64_encode bs :
  length (base64_encode bs) = (4 * ((length bs + 2) / 3))%nat.
Proof.
  unfold base64_encode.
  induction bs as [|a|a b|a b c l IH] using list_ind3; [done..|].
  cbn [sextets_of_bytes padding map app length].
  replace (S (S (S (length l))) + 2)%nat with (length l + 2 + 1 * 3)%nat by lia.
  rewrite Nat.div_add by done. rewrite IH. lia.
Qed.

Lemma length_binary_of_bytes bytes :
  length (map JS.charCodeAt (list_ascii_of_string (binary_of_bytes bytes)))
  = length bytes.
Proof. induction bytes as [|b l IH]; [done|]. cbn. by rewrite IH. Qed.

(** X3: the text that [encode] makes of [n] bytes has 4 * ceil(n / 3)
    characters: four for every three bytes, the last group padded. *)
Theorem encode_length (bytes : list Z) :
  String.length (encode bytes) = (4 * ((length bytes + 2) / 3))%nat.
Proof.
  unfold encode, btoa.
  by rewrite length_string_of_list, length_base64_encode, length_binary_of_bytes.
Qed.

End EncodeShape.

(** ** After the session *)

Section Late.

Lemma onmessage_no_context s now msg :
  audioCtxRef s = None →
  onmessage now msg s
  = match audioOut_of msg with
    | Ok _ =>
        match serverContent msg ≫= outputTranscription with
        | Some transcription => show_transcript transcription s
        | None => (Ok tt, s)
        end
    | Throw e => (Throw e, s)
    end.
Proof.
  intros Hctx. unfold onmessage.
  destruct (audioOut_of msg) as [audioOut|e]; [|done].
  rewrite bind_lift_ok, bind_read, Hctx.
  rewrite (bool_decide_eq_false_2 (is_Some None)) by by intros [? ?].
  rewrite andb_false_r, bind_ret.
  by destruct (serverContent msg ≫= outputTranscription).
Qed.

Lemma show_transcript_keeps (P : Scanner → Prop) tr :
  (∀ s v, P s → P (set_analysisText v s)) →
  (∀ s v, P s → P (set_mouldAlert v s)) →
  preserves P (show_transcript tr).
Proof.
  intros Ha Hm. unfold show_transcript.
  destruct (text tr); [|apply preserves_throw].
  cbn zeta. apply preserves_bind; [apply preserves_update; auto|].
  intros _. destruct (mould_condition _); apply preserves_update; auto.
Qed.

(** X4: with no output context, before a start or after a stop, inbound
    messages schedule nothing, whatever audio they carry and however many
    they are: no node is created, the in-flight set and the cursor stay as
    they are, and nothing is called. *)
Theorem late_audio_dropped (s : Scanner) (msgs : list (Q * LiveServerMessage)) :
  audioCtxRef s = None →
  let s' := run (messages msgs) s in
  nodes s' = nodes s ∧ sourcesRef s' = sourcesRef s
  ∧ nextStartTimeRef s' = nextStartTimeRef s ∧ effects s' = effects s
  ∧ audioCtxRef s' = None.
Proof.
  intros Hctx. cbn zeta.
  apply (preserves_run
           (λ s', nodes s' = nodes s ∧ sourcesRef s' = sourcesRef s
                  ∧ nextStartTimeRef s' = nextStartTimeRef s
                  ∧ effects s' = effects s ∧ audioCtxRef s' = None)); [|done].
  intros ev Hev. unfold messages in Hev.
  apply list_elem_of_fmap in Hev as ([now msg] & -> & _). cbn [fst snd handler].
  intros s0 (Hn & Hso & Hc & He & Hctx0).
  rewrite (onmessage_no_context s0 now msg Hctx0).
  destruct (audioOut_of msg); [|done].
  destruct (serverContent msg ≫= outputTranscription) as [tr|]; [|done].
  by apply (show_transcript_keeps
              (λ s', nodes s' = nodes s ∧ sourcesRef s' = sourcesRef s
                     ∧ nextStartTimeRef s' = nextStartTimeRef s
                     ∧ effects s' = effects s ∧ audioCtxRef s' = None)).
Qed.

Lemma late_audio_dropped_witness :
  audioCtxRef (step live_session EvStop) = None
  ∧ nodes (run (messages three_chunks) (step live_session EvStop))
    = nodes (step live_session EvStop)
  ∧ sourcesRef (run (messages three_chunks) (step live_session EvStop))
    = sourcesRef (step live_session EvStop)
  ∧ nextStartTimeRef (run (messages three_chunks) (step live_session EvStop))
    = nextStartTimeRef (step live_session EvStop)
  ∧ effects (run (messages three_chunks) (step live_session EvStop))
    = effects (step live_session EvStop)
  ∧ audioCtxRef (run (messages three_chunks) (step live_session EvStop)) = None.
Proof.
  split; [reflexivity|].
  exact (late_audio_dropped (step live_session EvStop) three_chunks eq_refl).
Defined.

(** X5: a message whose audio payload does not decode to a playable buffer
    makes [onmessage] raise after the cursor has been raised to the clock:
    nothing is scheduled, and the transcript the message may carry is not
    shown. *)
Theorem undecodable_audio (s : Scanner) (now : Q) (msg : LiveServerMessage)
    (audioOut : option string) :
  audioOut_of msg = Ok audioOut →
  JS.truthy_string audioOut = true →
  is_Some (audioCtxRef s) →
  audio_chunk msg = None →
  ∃ e, onmessage now msg s
       = (Throw e, set_nextStartTimeRef (Qmax (nextStartTimeRef s) now) s).
Proof.
  intros Ha Ht Hctx Hchunk. unfold audio_chunk in Hchunk.
  rewrite Ha, Ht in Hchunk. unfold onmessage.
  rewrite Ha, bind_lift_ok, bind_read, Ht, bool_decide_eq_true_2 by done.
  cbn [andb]. unfold mbind at 1, M_bind at 1.
  rewrite schedule_audio_eq. unfold schedule_audio_outcome.
  destruct (audioOut ≫= decode) as [bytes|]; [|by eexists].
  cbn in Hchunk.
  destruct (decodeAudioData bytes 24000 1) as [b|e]; [done|by eexists].
Qed.

Lemma undecodable_audio_witness :
  audioOut_of (audio_message "AQ==") = Ok (Some "AQ=="%string)
  ∧ JS.truthy_string (Some "AQ=="%string) = true
  ∧ is_Some (audioCtxRef live_session)
  ∧ audio_chunk (audio_message "AQ==") = None
  ∧ ∃ e, onmessage 9%Q (audio_message "AQ==") live_session
         = (Throw e,
            set_nextStartTimeRef (Qmax (nextStartTimeRef live_session) 9)
              live_session).
Proof.
  assert (H3 : is_Some (audioCtxRef live_session)) by (vm_compute; eauto).
  split; [reflexivity|]. split; [reflexivity|]. split; [exact H3|].
  split; [by vm_compute|].
  exact (undecodable_audio live_session 9%Q (audio_message "AQ==")
           (Some "AQ=="%string) eq_refl eq_refl H3 eq_refl).
Defined.

Lemma late_handler_quiet E ev :
  late_event ev = true →
  preserves (λ s, sessionRef s = None ∧ effects s = E) (handler ev).
Proof.
  destruct ev as [| | now msg | frame | blob | inputData | h | | |];
    intros Hev; try done; cbn [handler].
  - unfold onmessage. preserve.
    + intros s Hs. rewrite schedule_audio_eq. unfold schedule_audio_outcome.
      destruct (_ ≫= decode); [|done].
      destruct (decodeAudioData _ _ _); [|done]. by destruct (Qle_bool _ _).
    + apply show_transcript_keeps; by intros.
  - unfold interval_tick. preserve.
  - intros s [Hs He]. unfold frame_loadend. rewrite bind_read.
    destruct (framesInFlight s); [done|].
    rewrite bind_update, bind_read. cbn [sessionRef set_framesInFlight].
    rewrite Hs, (bool_decide_eq_false_2 (is_Some None)) by by intros [? ?].
    by rewrite andb_false_r.
  - intros s [Hs He]. unfold onaudioprocess. cbn zeta. rewrite bind_read.
    by rewrite Hs, (bool_decide_eq_false_2 (is_Some None)) by by intros [? ?].
  - unfold onended. preserve.
  - apply preserves_update. intros s Hs. unfold render. by destruct (active s).
Qed.

(** X6: once the session is gone, nothing is sent any more: whatever timer
    firings, encoded frames, microphone blocks, messages and playback ends
    still arrive, no call is made on the outside, so the frames that were in
    flight are dropped and no audio leaves. *)
Theorem nothing_sent_after_stop (s : Scanner) (evs : list Event) :
  sessionRef s = None →
  forallb late_event evs = true →
  effects (run evs s) = effects s ∧ sessionRef (run evs s) = None.
Proof.
  intros Hs Hevs.
  apply and_comm.
  apply (preserves_run (λ s', sessionRef s' = None ∧ effects s' = effects s));
    [|done].
  intros ev Hev. apply late_handler_quiet.
  rewrite forallb_forall in Hevs. by apply Hevs, list_elem_of_In.
Qed.

Lemma nothing_sent_after_stop_witness :
  sessionRef (step (step live_session (EvTick 4)) EvStop) = None
  ∧ forallb late_event
      [EvFrameLoadend true; EvAudioProcess [(1 # 2)%Q]; EvTick 5;
       EvMessage 1%Q (audio_message "AQIDBA=="); EvEnded 0] = true
  ∧ effects
      (run [EvFrameLoadend true; EvAudioProcess [(1 # 2)%Q]; EvTick 5;
            EvMessage 1%Q (audio_message "AQIDBA=="); EvEnded 0]
           (step (step live_session (EvTick 4)) EvStop))
    = effects (step (step live_session (EvTick 4)) EvStop)
  ∧ sessionRef
      (run [EvFrameLoadend true; EvAudioProcess [(1 # 2)%Q]; EvTick 5;
            EvMessage 1%Q (audio_message "AQIDBA=="); EvEnded 0]
           (step (step live_session (EvTick 4)) EvStop))
    = None.
Proof.
  split; [reflexivity|]. split; [reflexivity|].
  exact (nothing_sent_after_stop
           (step (step live_session (EvTick 4)) EvStop)
           [EvFrameLoadend true; EvAudioProcess [(1 # 2)%Q]; EvTick 5;
            EvMessage 1%Q (audio_message "AQIDBA=="); EvEnded 0]
           eq_refl eq_refl).
Defined.

End Late.

(** ** Playback never overlaps *)

Section Overlap.

Lemma no_overlap_raised s now :
  no_overlap s → no_overlap (set_nextStartTimeRef (Qmax (nextStartTimeRef s) now) s).
Proof.
  intros (Hc & Hend & Hpair).
  pose proof (Q.le_max_l (nextStartTimeRef s) now) as Hmax.
  split; [cbn; lra|]. split; [|exact Hpair].
  intros h n t Hn Ht. destruct (Hend h n t Hn Ht) as (b & Hb & H0 & Hle).
  exists b. split; [done|]. split; [done|]. cbn. lra.
Qed.

Lemma no_overlap_scheduled s now b :
  (0 <= duration b)%Q → no_overlap s →
  no_overlap (scheduled (Qmax (nextStartTimeRef s) now) b s).
Proof.
  intros Hd (Hc & Hend & Hpair).
  pose proof (Q.le_max_l (nextStartTimeRef s) now) as Hmax.
  set (t := Qmax (nextStartTimeRef s) now) in *. clearbody t.
  split; [cbn; lra|]. split.
  - intros h n t' Hn Ht. cbn in Hn |- *.
    apply lookup_app_Some in Hn as [Hn|[_ Hn]].
    + destruct (Hend h n t' Hn Ht) as (b' & Hb' & H0 & Hle).
      exists b'. split; [done|]. split; [done|]. lra.
    + apply list_lookup_singleton_Some in Hn as [_ <-]. cbn in Ht.
      injection Ht as <-. exists b. split; [done|].
      split; [lra|apply Qle_refl].
  - intros h1 h2 n1 n2 t1 t2 b1 Hlt Hn1 Hn2 Ht1 Ht2 Hb1. cbn in Hn1, Hn2.
    apply lookup_app_Some in Hn2 as [Hn2|[Hlen Hn2]].
    + apply lookup_app_Some in Hn1 as [Hn1|[Hlen1 _]].
      * by eapply Hpair.
      * apply lookup_lt_Some in Hn2. lia.
    + apply list_lookup_singleton_Some in Hn2 as [Hz2 <-]. cbn in Ht2.
      injection Ht2 as <-.
      apply lookup_app_Some in Hn1 as [Hn1|[Hlen1 Hn1]].
      * destruct (Hend h1 n1 t1 Hn1 Ht1) as (b' & Hb' & _ & Hle).
        rewrite Hb1 in Hb'. injection Hb' as <-. lra.
      * apply list_lookup_singleton_Some in Hn1 as [Hz _]. lia.
Qed.

Lemma well_scheduled_schedule_audio now audioOut :
  preserves well_scheduled (schedule_audio now audioOut).
Proof.
  intros s [Hin Hno]. split; [by apply in_flight_schedule_audio|].
  rewrite schedule_audio_eq. unfold schedule_audio_outcome.
  destruct (audioOut ≫= decode) as [bytes|]; [|by apply no_overlap_raised].
  destruct (decodeAudioData bytes 24000 1) as [b|e] eqn:Hb;
    [|by apply no_overlap_raised].
  destruct (Qle_bool 0 _) eqn:Hpos.
  - apply no_overlap_scheduled; [|done]. by eapply duration_nonneg.
  - exfalso. destruct Hno as (Hc & _).
    assert (Qle_bool 0 (Qmax (nextStartTimeRef s) now) = true); [|congruence].
    apply Qle_bool_iff. pose proof (Q.le_max_l (nextStartTimeRef s) now). lra.
Qed.

Lemma well_scheduled_onended h : preserves well_scheduled (onended h).
Proof.
  intros s [Hin Hno]. split; [by apply in_flight_onended|].
  destruct Hno as (Hc & Hend & Hpair).
  unfold onended. rewrite bind_read.
  destruct (nodes s !! h) as [[b st]|] eqn:Hh; [|done].
  destruct st; cbn [fmap option_fmap option_map node_state]; try done.
  rewrite !bind_update. split; [done|]. split.
  - intros h' n t. cbn. rewrite list_lookup_alter.
    destruct (decide (h = h')) as [<-|Hne]; [|by apply Hend].
    rewrite Hh. by intros [= <-].
  - intros h1 h2 n1 n2 t1 t2 b1 Hlt. cbn. rewrite !list_lookup_alter.
    destruct (decide (h = h1)) as [<-|Hne1]; [rewrite Hh; by intros [= <-]|].
    destruct (decide (h = h2)) as [<-|Hne2]; [rewrite Hh; by intros ? [= <-]|].
    by apply Hpair.
Qed.

Lemma well_scheduled_stopped s : well_scheduled s → well_scheduled (stopped s).
Proof.
  intros [Hin _]. pose proof (in_flight_stopped s Hin) as Hstopped.
  split; [done|].
  assert (Hnone : ∀ h n t, nodes (stopped s) !! h = Some n →
                           node_state n = Scheduled t → False).
  { intros h n t Hn Ht. eapply elem_of_nil, Hstopped. eauto. }
  split; [done|]. split.
  - intros h n t Hn Ht. by destruct (Hnone h n t).
  - intros h1 h2 n1 n2 t1 t2 b1 _ Hn1 _ Ht1. by destruct (Hnone h1 n1 t1).
Qed.

Lemma well_scheduled_render s : well_scheduled s → well_scheduled (render s).
Proof. unfold render. by destruct (active s). Qed.

Lemma well_scheduled_handler ev : preserves well_scheduled (handler ev).
Proof.
  destruct ev as [enabled g script | g | now msg | frame | blob | inputData | h
                 | g script | |]; cbn [handler].
  - induction script as [|attempt rest IH];
      cbn [startScanner]; unfold call, attach; destruct enabled; cbn [negb];
      cbv zeta; unfold call; preserve;
      first [ apply preserves_stopScanner, well_scheduled_stopped
            | apply preserves_update, well_scheduled_render ].
  - unfold onopen. preserve.
  - unfold onmessage, show_transcript. preserve.
    apply well_scheduled_schedule_audio.
  - unfold interval_tick. preserve.
  - unfold frame_loadend, call. preserve.
  - unfold onaudioprocess, call. preserve.
  - apply well_scheduled_onended.
  - induction script as [|attempt rest IH]; cbn [captureFullAnalysis]; unfold call;
      preserve.
  - apply preserves_update, well_scheduled_render.
  - apply preserves_stopScanner, well_scheduled_stopped.
Qed.

Lemma well_scheduled_run g evs : well_scheduled (run evs (mounted g)).
Proof.
  apply preserves_run.
  - intros ev _. apply well_scheduled_handler.
  - split.
    + intros h. cbn. split; [by intros ?%elem_of_nil|].
      by intros (n & t & Hn & _).
    + split; [done|]. split; [by intros h n t Hn|by intros h1 h2 n1 n2 t1 t2 b1 _ Hn].
Qed.

(** X7: in every state the view can reach, the cursor is not negative and
    scheduled playback never overlaps: each scheduled buffer starts at a time
    that is not negative and ends by the cursor, and of two scheduled buffers
    the one scheduled first ends before the other starts. *)
Theorem playback_never_overlaps (isGamified : bool) (evs : list Event) :
  let s := run evs (mounted isGamified) in
  (0 <= nextStartTimeRef s)%Q
  ∧ (∀ h n t, nodes s !! h = Some n → node_state n = Scheduled t →
              ∃ b, buffer n = Some b ∧ (0 <= t)%Q
                   ∧ (t + duration b <= nextStartTimeRef s)%Q)
  ∧ (∀ h1 h2 n1 n2 t1 t2 b1,
       (h1 < h2)%nat →
       nodes s !! h1 = Some n1 → nodes s !! h2 = Some n2 →
       node_state n1 = Scheduled t1 → node_state n2 = Scheduled t2 →
       buffer n1 = Some b1 → (t1 + duration b1 <= t2)%Q).
Proof. cbn zeta. by destruct (well_scheduled_run isGamified evs) as [_ ?]. Qed.

End Overlap.

(** ** A start that fails *)

Section FailedStart.






End FailedStart.

(** ** [cleanJson] *)

Section CleanJson.

Import Text.

Lemma String_app c a b : (String c a ++ b = String c (a ++ b))%string.
Proof. done. Qed.

Lemma append_assoc a b c : ((a ++ b) ++ c = a ++ (b ++ c))%string.
Proof.
  induction a as [|x a IH]; [done|]. rewrite !String_app. by rewrite IH.
Qed.

Lemma indexOf_bound s c : -1 <= indexOf s c.
Proof.
  induction s as [|a s IH]; cbn [indexOf]; [done|].
  destruct (Ascii.eqb a c); [done|]. cbn zeta.
  destruct (indexOf s c =? -1) eqn:E; lia.
Qed.

Lemma absent_cons c a s : absent c (String a s) ↔ a ≠ c ∧ absent c s.
Proof.
  unfold absent. cbn [indexOf]. pose proof (indexOf_bound s c).
  destruct (Ascii.eqb_spec a c) as [->|Hne]; cbn zeta.
  - split; [done|]. by intros [? _].
  - destruct (indexOf s c =? -1) eqn:E.
    + apply Z.eqb_eq in E. tauto.
    + apply Z.eqb_neq in E. split; [lia|]. by intros [_ ?].
Qed.

Lemma absent_app c a b : absent c (a ++ b) ↔ absent c a ∧ absent c b.
Proof.
  induction a as [|x a IH].
  - cbn. unfold absent at 2. cbn. tauto.
  - rewrite String_app, !absent_cons, IH. tauto.
Qed.

Lemma indexOf_app_absent c a r :
  absent c a →
  indexOf (a ++ r) c
  = if indexOf r c =? -1 then -1 else Z.of_nat (String.length a) + indexOf r c.
Proof.
  induction a as [|x a IH]; intros Ha.
  - change (indexOf r c = if indexOf r c =? -1 then -1 else 0 + indexOf r c).
    destruct (indexOf r c =? -1) eqn:E; [|lia].
    by apply Z.eqb_eq in E.
  - apply absent_cons in Ha as [Hx Ha]. rewrite String_app. cbn [indexOf].
    rewrite (proj2 (Ascii.eqb_neq x c) Hx), (IH Ha). cbn zeta.
    pose proof (indexOf_bound r c).
    destruct (indexOf r c =? -1) eqn:E; [done|].
    apply Z.eqb_neq in E. cbn [String.length].
    destruct (_ =? -1) eqn:E'; [apply Z.eqb_eq in E'|]; lia.
Qed.

Lemma lastIndexOf_absent c s : absent c s → lastIndexOf s c = -1.
Proof.
  induction s as [|a s IH]; [done|].
  intros [Ha Hs]%absent_cons. cbn [lastIndexOf]. rewrite (IH Hs). cbn.
  by rewrite (proj2 (Ascii.eqb_neq a c) Ha).
Qed.

Lemma lastIndexOf_app_found c a r :
  lastIndexOf r c ≠ -1 →
  lastIndexOf (a ++ r) c = Z.of_nat (String.length a) + lastIndexOf r c.
Proof.
  intros Hr. induction a as [|x a IH].
  { change (lastIndexOf r c = 0 + lastIndexOf r c). lia. }
  rewrite String_app. cbn [lastIndexOf String.length]. rewrite IH. cbn zeta.
  assert (-1 <= lastIndexOf r c).
  { clear. induction r as [|y r IH]; cbn [lastIndexOf]; [done|]. cbn zeta.
    destruct (lastIndexOf r c =? -1); [by destruct (Ascii.eqb y c)|lia]. }
  destruct (_ =? -1) eqn:E; [apply Z.eqb_eq in E|]; lia.
Qed.

Lemma lastIndexOf_last c a post :
  absent c post → lastIndexOf (a ++ String c post) c = Z.of_nat (String.length a).
Proof.
  intros Hp. rewrite lastIndexOf_app_found.
  - cbn [lastIndexOf]. rewrite (lastIndexOf_absent c post Hp). cbn.
    rewrite Ascii.eqb_refl. lia.
  - cbn [lastIndexOf]. rewrite (lastIndexOf_absent c post Hp). cbn.
    by rewrite Ascii.eqb_refl.
Qed.

Lemma length_append a b :
  String.length (a ++ b) = (String.length a + String.length b)%nat.
Proof.
  induction a as [|x a IH]; [done|].
  rewrite String_app. cbn [String.length]. by rewrite IH.
Qed.

Lemma substring_prefix mid post :
  String.substring 0 (String.length mid) (mid ++ post) = mid.
Proof.
  induction mid as [|x mid IH]; [by destruct post|].
  rewrite String_app. cbn [String.length String.substring]. by rewrite IH.
Qed.

Lemma substring_middle pre mid post :
  String.substring (String.length pre) (String.length mid) (pre ++ mid ++ post)
  = mid.
Proof.
  induction pre as [|x pre IH]; [exact (substring_prefix mid post)|].
  rewrite String_app. cbn [String.length String.substring]. apply IH.
Qed.

Lemma Text_substring_middle pre mid post :
  substring (pre ++ mid ++ post) (Z.of_nat (String.length pre))
    (Z.of_nat (String.length pre) + Z.of_nat (String.length mid))
  = mid.
Proof.
  unfold substring. rewrite !length_append. cbn zeta.
  replace (Z.to_nat (Z.min _ _)) with (String.length pre) by lia.
  replace (Z.to_nat (_ - _)) with (String.length mid) by lia.
  apply substring_middle.
Qed.

(** X9: [cleanJson] cuts a JSON value out of the text around it. When the
    text has no bracket and no brace before an opening brace (or bracket), and
    the matching closing character does not occur after the last one, the
    result is exactly the text from that opening to that closing character,
    whatever prose or code fence surrounds it and whatever stands between
    them. *)
Theorem cleanJson_extracts (opener closer : ascii) (pre body post : string) :
  json_delimiters opener closer →
  absent "[" pre → absent "{" pre → absent closer post →
  cleanJson (pre ++ String opener (body ++ String closer post))
  = String opener (body ++ String closer EmptyString).
Proof.
  intros Hd Hpre1 Hpre2 Hpost.
  set (text := (pre ++ String opener (body ++ String closer post))%string).
  assert (Hne : ∃ c r, text = String c r).
  { unfold text. destruct pre; cbn; eauto. }
  assert (Hlast : lastIndexOf text closer
                  = Z.of_nat (String.length pre) + 1 + Z.of_nat (String.length body)).
  { unfold text.
    replace (pre ++ String opener (body ++ String closer post))%string
      with ((pre ++ String opener body) ++ String closer post)%string.
    - rewrite lastIndexOf_last, length_append by done. cbn [String.length]. lia.
    - by rewrite append_assoc, String_app. }
  assert (Hcut : substring text (Z.of_nat (String.length pre))
                   (Z.of_nat (String.length pre) + 1 + Z.of_nat (String.length body) + 1)
                 = String opener (body ++ String closer EmptyString)).
  { pose proof (Text_substring_middle pre
                  (String opener (body ++ String closer EmptyString)) post) as H.
    replace (pre ++ String opener (body ++ String closer EmptyString) ++ post)%string
      with text in H.
    - rewrite <- H. f_equal. cbn [String.length]. rewrite length_append.
      cbn [String.length]. lia.
    - unfold text. by rewrite String_app, append_assoc. }
  assert (Hopen : indexOf text opener = Z.of_nat (String.length pre)).
  { unfold text. rewrite indexOf_app_absent.
    - cbn [indexOf]. rewrite Ascii.eqb_refl. cbn. lia.
    - by destruct Hd as [[-> _]|[-> _]]. }
  assert (Hother : ∀ c, c ≠ opener → absent c pre →
                        indexOf text c = -1
                        ∨ Z.of_nat (String.length pre) < indexOf text c).
  { intros c Hc Hpre. unfold text. rewrite (indexOf_app_absent c pre _ Hpre).
    cbn [indexOf]. rewrite (proj2 (Ascii.eqb_neq opener c)) by done. cbn zeta.
    pose proof (indexOf_bound (body ++ String closer post) c).
    destruct (indexOf (body ++ String closer post) c =? -1) eqn:E; cbn; [by left|].
    apply Z.eqb_neq in E. right.
    destruct (_ =? -1) eqn:E'; [apply Z.eqb_eq in E'|]; lia. }
  unfold cleanJson. destruct Hne as (c0 & r0 & Htext). rewrite Htext. rewrite <- Htext.
  assert (Hbranch :
    (opener = "{"%char ∧ closer = "}"%char ∧
     (indexOf text "[" = -1 ∨ Z.of_nat (String.length pre) < indexOf text "["))
    ∨ (opener = "["%char ∧ closer = "]"%char ∧
       (indexOf text "{" = -1 ∨ Z.of_nat (String.length pre) < indexOf text "{"))).
  { destruct Hd as [[-> ->]|[-> ->]]; [left|right]; (split; [done|split; [done|]]);
      by apply Hother. }
  destruct Hbranch as [(-> & -> & Hb)|(-> & -> & Hb)];
    rewrite Hopen, Hlast;
    repeat (match goal with
            | |- context [Z.eqb ?a ?b] => destruct (Z.eqb_spec a b); try lia
            | |- context [Z.ltb ?a ?b] => destruct (Z.ltb_spec a b); try lia
            end; cbn [negb andb orb]);
    exact Hcut.
Qed.

(** Fenced prose around an object: the object alone is returned. *)
Lemma cleanJson_extracts_witness :
  cleanJson "Sure, here it is: { k: [1, 2] } Enjoy!" = "{ k: [1, 2] }".
Proof.
  exact (cleanJson_extracts "{" "}" "Sure, here it is: " " k: [1, 2] " " Enjoy!"
           (or_introl (conj eq_refl eq_refl)) eq_refl eq_refl eq_refl).
Defined.

End CleanJson.

(** ** Data URLs *)

Section DataUrl.

Import Text.

Lemma split_absent c b : absent c b → split b c = [b].
Proof.
  induction b as [|x b IH]; [done|].
  intros [Hx Hb]%absent_cons. cbn [split].
  by rewrite (proj2 (Ascii.eqb_neq x c) Hx), (IH Hb).
Qed.

Lemma split_app c a b :
  absent c a → split (a ++ String c b) c = a :: split b c.
Proof.
  induction a as [|x a IH].
  - intros _. change (split (String c b) c = EmptyString :: split b c).
    cbn [split]. by rewrite Ascii.eqb_refl.
  - intros [Hx Ha]%absent_cons. rewrite String_app. cbn [split].
    by rewrite (proj2 (Ascii.eqb_neq x c) Hx), (IH Ha).
Qed.

Lemma absent_of_list c l :
  Forall (λ x, x ≠ c) l → absent c (string_of_list_ascii l).
Proof.
  induction 1 as [|x l Hx Hl IH]; [done|].
  cbn [string_of_list_ascii]. by apply absent_cons.
Qed.

Lemma char_of_sextet_plain n : Base64.char_of_sextet n ≠ ","%char.
Proof.
  unfold Base64.char_of_sextet.
  destruct (nth_in_or_default (Z.to_nat n) Base64.alphabet Base64.pad) as [Hin| ->];
    [|done].
  assert (H : forallb (λ c, negb (Ascii.eqb c ",")) Base64.alphabet = true)
    by reflexivity.
  rewrite forallb_forall in H. apply H in Hin.
  intros E. rewrite E in Hin. done.
Qed.

Lemma padding_plain bs : Forall (λ x, x ≠ ","%char) (Base64.padding bs).
Proof.
  induction bs as [| | |a b c l IH] using list_ind3; cbn [Base64.padding];
    repeat constructor; done.
Qed.

Lemma encode_plain bytes : absent "," (encode bytes).
Proof.
  unfold encode, Base64.btoa, Base64.base64_encode.
  apply absent_of_list, Forall_app. split; [|apply padding_plain].
  apply Forall_map, Forall_forall. intros n _. apply char_of_sextet_plain.
Qed.

(** X10: the payload that the upload and the two captures of the scanner cut
    out of a data URL with [split(',')[1]] is the whole base64 text of the
    file: for a media type without a comma, the data URL of the bytes gives
    back [encode bytes], which [decode] turns into the bytes again. *)
Theorem data_url_payload_base64 (mime : string) (bytes : list Z) :
  absent "," mime →
  data_url_payload (data_url mime bytes) = Some (encode bytes)
  ∧ (Forall is_byte bytes →
     data_url_payload (data_url mime bytes) ≫= decode = Some bytes).
Proof.
  intros Hm.
  assert (H : data_url_payload (data_url mime bytes) = Some (encode bytes)).
  { unfold data_url_payload, data_url.
    change (";base64," ++ encode bytes)%string
      with (";base64" ++ String "," (encode bytes))%string.
    rewrite <- !append_assoc. rewrite split_app.
    - by rewrite (split_absent _ _ (encode_plain bytes)).
    - apply absent_app. split; [|done]. apply absent_app. by split. }
  split; [done|]. intros Hb. rewrite H. cbn. by apply decode_after_encode.
Qed.

Lemma data_url_payload_base64_witness :
  data_url_payload (data_url "image/jpeg" [255; 216; 255; 224]) = Some "/9j/4A=="
  ∧ data_url_payload (data_url "image/jpeg" [255; 216; 255; 224]) ≫= decode
    = Some [255; 216; 255; 224].
Proof.
  destruct (data_url_payload_base64 "image/jpeg" [255; 216; 255; 224] eq_refl)
    as [H1 H2].
  split; [exact H1|]. apply H2. repeat constructor; unfold is_byte; lia.
Defined.

End DataUrl.

(** ** The estimates of [geminiService.ts] *)

Section Estimates.

Import Text.

Lemma match_digits_none text : digit_free text = true → match_digits text = None.
Proof.
  induction text as [|c r IH]; [done|].
  cbn [digit_free string_forallb match_digits]. intros [Hc Hr]%andb_true_iff.
  apply negb_true_iff in Hc. rewrite Hc. by apply IH.
Qed.

Lemma match_decimal_none text : digit_free text = true → match_decimal text = None.
Proof.
  induction text as [|c r IH]; [done|].
  cbn [digit_free string_forallb match_decimal]. intros [Hc Hr]%andb_true_iff.
  apply negb_true_iff in Hc. rewrite Hc. by apply IH.
Qed.

(** X11: without a number to read, the estimates fall back on their defaults.
    When the request fails, or the answer has no text or no digit in it,
    [estimateItemPrice] gives 5 and [estimateItemCalories] gives 0. *)
Theorem estimates_fall_back (response : Result (option string)) :
  no_number response = true →
  estimateItemPrice response = 5%Q ∧ estimateItemCalories response = 0.
Proof.
  destruct response as [[text|]|e]; cbn [no_number]; intros H; [|done|done].
  unfold estimateItemPrice, estimateItemCalories. cbn [default id].
  by rewrite match_decimal_none, match_digits_none.
Qed.

Lemma estimates_fall_back_witness :
  estimateItemPrice (Ok (Some "I could not find a price.")) = 5%Q
  ∧ estimateItemCalories (Ok (Some "I could not find a price.")) = 0.
Proof.
  apply (estimates_fall_back (Ok (Some "I could not find a price."%string))).
  reflexivity.
Defined.











End Estimates.

(** ** [ExpiryBadge] *)

Section Expiry.

Import Text.

Lemma round_days d e :
  - day_ms <= 2 * e < day_ms →
  round (inject_Z (d * day_ms + e) / inject_Z day_ms) = d.
Proof.
  intros He. change day_ms with 86400000 in *.
  unfold round, Qdiv, Qinv, Qmult, Qplus, Qfloor, inject_Z. cbn [Qnum Qden].
  change (Z.pos (1 * 86400000 * 2)) with 172800000.
  change (Z.pos (1 * 86400000)) with 86400000.
  change (Z.pos 1) with 1. change (Z.pos 2) with 2.
  Z.to_euclidean_division_equations. lia.
Qed.

(** X13: the badge counts whole days and is not moved by a change of clock.
    When the local midnight of the expiry date lies [d] days of 24 hours
    after today's, give or take less than half a day, the badge is the one
    of exactly [d] days: Expired below zero, Expires Today at zero, and
    [d] days left above. *)
Theorem badge_counts_days (today d e : Z) :
  - day_ms <= 2 * e < day_ms →
  ExpiryBadge (Some (today + d * day_ms + e)) today
  = ExpiryBadge (Some (today + d * day_ms)) today
  ∧ badge_text (ExpiryBadge (Some (today + d * day_ms + e)) today)
    = if d <? 0 then "Expired"
      else if d =? 0 then "Expires Today"
      else (string_of_Z d ++ " days left")%string.
Proof.
  intros He.
  assert (H : ∀ e', - day_ms <= 2 * e' < day_ms →
    Text.round (inject_Z (today + d * day_ms + e' - today) / inject_Z day_ms) = d).
  { intros e' He'. replace (today + d * day_ms + e' - today) with (d * day_ms + e') by lia.
    by apply round_days. }
  assert (H0 : Text.round (inject_Z (today + d * day_ms - today) / inject_Z day_ms) = d).
  { specialize (H 0). rewrite Z.add_0_r in H. apply H. unfold day_ms. lia. }
  unfold ExpiryBadge. cbn zeta. rewrite (H e He), H0. split; [done|].
  destruct (d <? 0); [done|]. destruct (d =? 0); [done|].
  destruct (d <=? 3); [done|]. by destruct (d <=? 7).
Qed.

(** The day summer time starts: midnight comes an hour early, five days on. *)
Lemma badge_counts_days_witness :
  badge_text (ExpiryBadge (Some (1700000000000 + 5 * day_ms + -3600000)) 1700000000000)
  = "5 days left".
Proof.
  refine (proj2 (badge_counts_days 1700000000000 5 (-3600000) _)).
  unfold day_ms. lia.
Defined.

End Expiry.
